(** * Paper-similarity checker: normalisation, tokenisation and LCS scoring

    A shallow embedding of [utils/text_processor.py],
    [algorithms/lcs_algorithm.py], the scoring entry point of [main.py] and
    the path check of [utils/file_manager.py], together with the properties
    stated about them.

    Conventions of the embedding.
    - A Python [str] is the list of its Unicode code points ([text]).
    - A Python [int] is a [Z]; list indices follow Python (negative indices
      count from the end, anything out of range raises [IndexError]).
    - Code that can raise runs in the error monad [Exc].
    - A Python [float] is represented by the rational number it denotes
      ([Qc]).  The scores the statements below speak about (0.0, 0.5, 1.0 and
      the bounds of the unit interval) are exactly representable in binary
      floating point, and [round(x, 4)] is read as rounding to the nearest
      multiple of 1/10000, ties to even.
    - [str.lower] depends on the Unicode case-mapping tables of the Python
      runtime, which are not part of the repository: it is a parameter
      [lower], constrained where needed by the two facts listed in
      [LowerFacts]. *)

From Stdlib Require Import ZArith QArith Qcanon Qround Lia Lqa.
From Stdlib Require String Ascii.
From stdpp Require Import base list numbers.

Import String.StringSyntax.
Local Open Scope Z_scope.
Delimit Scope string_scope with string.

(** ** Python values and exceptions *)

Abbreviation text := (list Z).

(** Text literals: the code points of a UTF-8 encoded string constant. *)
Fixpoint utf8_decode (bs : list Z) : text :=
  match bs with
  | [] => []
  | b0 :: rest =>
      if b0 <? 0x80 then b0 :: utf8_decode rest
      else
        match rest with
        | [] => []
        | b1 :: rest1 =>
            if b0 <? 0xE0 then
              Z.lor (Z.shiftl (Z.land b0 0x1F) 6) (Z.land b1 0x3F)
              :: utf8_decode rest1
            else
              match rest1 with
              | [] => []
              | b2 :: rest2 =>
                  if b0 <? 0xF0 then
                    Z.lor (Z.shiftl (Z.land b0 0x0F) 12)
                      (Z.lor (Z.shiftl (Z.land b1 0x3F) 6) (Z.land b2 0x3F))
                    :: utf8_decode rest2
                  else
                    match rest2 with
                    | [] => []
                    | b3 :: rest3 =>
                        Z.lor (Z.shiftl (Z.land b0 0x07) 18)
                          (Z.lor (Z.shiftl (Z.land b1 0x3F) 12)
                             (Z.lor (Z.shiftl (Z.land b2 0x3F) 6)
                                (Z.land b3 0x3F)))
                        :: utf8_decode rest3
                    end
              end
        end
  end.

Definition lit (s : String.string) : text :=
  utf8_decode
    ((fun ch => Z.of_nat (Ascii.nat_of_ascii ch))
       <$> String.list_ascii_of_string s).
Arguments lit s%_string.

Inductive exn : Set :=
  | AttributeError
  | TypeError
  | IndexError
  | ZeroDivisionError
  | RuntimeError.

Inductive Exc (A : Type) : Type :=
  | Ok (a : A)
  | Raise (e : exn).
Arguments Ok {A} a.
Arguments Raise {A} e.

Global Instance Exc_ret : MRet Exc := fun _ a => Ok a.
Global Instance Exc_bind : MBind Exc := fun _ _ f m =>
  match m with
  | Ok a => f a
  | Raise e => Raise e
  end.

(** [try: body except Exception: handler]. *)
Definition try_except {A} (body : Exc A) (handler : exn -> Exc A) : Exc A :=
  match body with
  | Ok a => Ok a
  | Raise e => handler e
  end.

(** The values a caller can pass where the annotations say [str], as far as
    their truth test ([__bool__], [__len__]) returns: that is so of [None],
    of every [bool], [int] and [str], and of the well-behaved objects of any
    other type.  Objects whose truth test raises are the [Faulty] objects of
    [PyObj] below. *)
Inductive PyVal : Type :=
  | PyNone
  | PyBool (b : bool)
  | PyInt (z : Z)
  | PyStr (s : text)
  | PyOther (truth : bool).   (* any other object: a list, bytes, a dict, ...;
                                 the code only ever tests its truth value *)

(** Truth value testing ([not x], [if x:], [x or y]). *)
Definition py_truthy (v : PyVal) : bool :=
  match v with
  | PyNone => false
  | PyBool b => b
  | PyInt z => negb (z =? 0)
  | PyStr s => match s with [] => false | _ => true end
  | PyOther truth => truth
  end.

Definition isinstance_str (v : PyVal) : bool :=
  match v with
  | PyStr _ => true
  | _ => false
  end.




Definition py_len {A} (l : list A) : Z := Z.of_nat (length l).

(** [l[i]]. *)
Definition py_index {A} (l : list A) (i : Z) : Exc nat :=
  let k := if i <? 0 then i + py_len l else i in
  if (0 <=? k) && (k <? py_len l) then Ok (Z.to_nat k) else Raise IndexError.

Definition py_getitem {A} (l : list A) (i : Z) : Exc A :=
  k ← py_index l i;
  match l !! k with
  | Some x => Ok x
  | None => Raise IndexError
  end.

(** [l[i] = x]. *)
Definition py_setitem {A} (l : list A) (i : Z) (x : A) : Exc (list A) :=
  k ← py_index l i;
  Ok (<[k := x]> l).

(** [range(lo, hi)]. *)
Definition py_range (lo hi : Z) : list Z :=
  (fun k => lo + Z.of_nat k) <$> seq 0 (Z.to_nat (hi - lo)).

(** [for x in xs: body], threading the state the body updates. *)
Fixpoint for_each {A S} (xs : list A) (body : A -> S -> Exc S) (s : S) : Exc S :=
  match xs with
  | [] => Ok s
  | x :: xs' => s' ← body x s; for_each xs' body s'
  end.

(** [x or y] on integers. *)
Definition py_or (x y : Z) : Z := if x =? 0 then y else x.

(** [a / b] on integers (true division). *)
Definition py_truediv (a b : Z) : Exc Qc :=
  if b =? 0 then Raise ZeroDivisionError
  else Ok (Q2Qc (inject_Z a / inject_Z b)).

(** [min(a, b)] and [max(a, b)]: the first argument unless the second is
    strictly smaller (resp. larger). *)
Definition py_min (a b : Qc) : Qc := if Qclt_le_dec b a then b else a.
Definition py_max (a b : Qc) : Qc := if Qclt_le_dec a b then b else a.

(** Rounding to the nearest integer, ties to even. *)
Definition round_half_even (q : Q) : Z :=
  let f := Qfloor q in
  match (q - inject_Z f ?= 1 # 2)%Q with
  | Lt => f
  | Gt => f + 1
  | Eq => if Z.even f then f else f + 1
  end.

(** [round(q, ndigits)] on the rational a float denotes.  The runtime rounds
    the double itself: the two agree wherever the statements below use them
    (the values 0, 1/2 and 1, bounds and order), not at every decimal tie. *)
Definition py_round (q : Qc) (ndigits : nat) : Qc :=
  let scale := inject_Z (10 ^ Z.of_nat ndigits) in
  Q2Qc (inject_Z (round_half_even (q * scale)%Q) / scale).

(** ** Unicode character classes *)

(** Whitespace as the runtime sees it ([str.isspace], [\s] in a [str]
    pattern, [str.strip], [str.split]). *)
Definition is_space (c : Z) : bool :=
  ((0x09 <=? c) && (c <=? 0x0D)) || ((0x1C <=? c) && (c <=? 0x20))
  || (c =? 0x85) || (c =? 0xA0) || (c =? 0x1680)
  || ((0x2000 <=? c) && (c <=? 0x200A))
  || (c =? 0x2028) || (c =? 0x2029) || (c =? 0x202F) || (c =? 0x205F)
  || (c =? 0x3000).

Definition SPACE : Z := 0x20.

(** ** Regular expressions: the fragment [re.sub] is called with *)

Inductive class_item : Type :=
  | CRange (lo hi : Z)    (* \uXXXX-\uYYYY *)
  | CSpace.               (* \s *)

Record char_class : Type := {
  negated : bool;
  items : list class_item
}.

Definition item_matches (it : class_item) (c : Z) : bool :=
  match it with
  | CRange lo hi => (lo <=? c) && (c <=? hi)
  | CSpace => is_space c
  end.

Definition class_matches (cls : char_class) (c : Z) : bool :=
  xorb (negated cls) (existsb (fun it => item_matches it c) (items cls)).

Inductive regex : Type :=
  | Class (cls : char_class)                 (* [...]   *)
  | AtLeast (n : nat) (cls : char_class).    (* [...]{n,} *)

(** Length of the longest prefix made of characters of the class. *)
Fixpoint run_length (cls : char_class) (s : text) : nat :=
  match s with
  | c :: s' => if class_matches cls c then S (run_length cls s') else O
  | [] => O
  end.

(** Greedy match anchored at the head of [s]: the number of characters
    consumed. *)
Definition match_at (r : regex) (s : text) : option nat :=
  match r with
  | Class cls =>
      match s with
      | c :: _ => if class_matches cls c then Some 1%nat else None
      | [] => None
      end
  | AtLeast n cls =>
      let k := run_length cls s in
      if (n <=? k)%nat then Some k else None
  end.

(** [re.sub(r, repl, s)]: leftmost non-overlapping matches, scanned from left
    to right.  [skip] counts the characters of the current match still to be
    passed over.  Both patterns of the source consume at least one character,
    so an empty match never arises; the scan treats it as no match. *)
Fixpoint re_sub_scan (r : regex) (repl : text) (skip : nat) (s : text) : text :=
  match s with
  | [] => []
  | c :: s' =>
      match skip with
      | S k => re_sub_scan r repl k s'
      | O =>
          match match_at r s with
          | Some (S k) => repl ++ re_sub_scan r repl k s'
          | _ => c :: re_sub_scan r repl O s'
          end
      end
  end.

Definition re_sub (r : regex) (repl : text) (s : text) : text :=
  re_sub_scan r repl O s.

(** ** str methods *)

Fixpoint lstrip (s : text) : text :=
  match s with
  | c :: s' => if is_space c then lstrip s' else s
  | [] => []
  end.

Definition rstrip (s : text) : text := rev (lstrip (rev s)).

(** [s.strip()]. *)
Definition str_strip (s : text) : text := rstrip (lstrip s).

(** [s.split()]: [cur] holds, reversed, the characters of the word being
    read. *)
Fixpoint split_scan (cur : text) (s : text) : list text :=
  match s with
  | [] => match cur with [] => [] | _ => [rev cur] end
  | c :: s' =>
      if is_space c then
        match cur with
        | [] => split_scan [] s'
        | _ => rev cur :: split_scan [] s'
        end
      else split_scan (c :: cur) s'
  end.

Definition str_split (s : text) : list text := split_scan [] s.

(** [sep.join(parts)]. *)
Fixpoint str_join (sep : text) (parts : list text) : text :=
  match parts with
  | [] => []
  | [p] => p
  | p :: ps => p ++ sep ++ str_join sep ps
  end.

(** ** utils/text_processor.py *)

Module TextProcessor.

(** [[^\u4e00-\u9fff\u0030-\u0039\u0041-\u005a\u0061-\u007a\s]] *)
Definition disallowed : regex :=
  Class {| negated := true;
           items := [CRange 0x4e00 0x9fff; CRange 0x0030 0x0039;
                     CRange 0x0041 0x005a; CRange 0x0061 0x007a; CSpace] |}.

(** [\s] *)
Definition space_class : char_class :=
  {| negated := false; items := [CSpace] |}.

(** [\s{2,}] *)
Definition space_run : regex := AtLeast 2 space_class.

Section WithLower.
(** [str.lower] of the runtime. *)
Variable lower : text -> text.

(** [raw_input.lower()]: a method of [str] only. *)
Definition str_lower (v : PyVal) : Exc text :=
  match v with
  | PyStr s => Ok (lower s)
  | _ => Raise AttributeError
  end.

Definition standardize_text (raw_input : PyVal) : Exc text :=
  if negb (py_truthy raw_input) || negb (isinstance_str raw_input) then
    Ok []
  else
    normalized_text ← str_lower raw_input;
    let normalized_text := re_sub disallowed [SPACE] normalized_text in
    let normalized_text := re_sub space_run [SPACE] normalized_text in
    Ok (str_strip normalized_text).



Definition tokenize_content (processed_text : text) : list text :=
  if negb (py_truthy (PyStr processed_text)) then []
  else str_split processed_text.

Definition compute_word_count (input_text : PyVal) : Exc Z :=
  processed ← standardize_text input_text;
  Ok (py_len (tokenize_content processed)).
End WithLower.

End TextProcessor.

(** ** algorithms/lcs_algorithm.py *)

Module LCSEngine.

(** The DP table: a list of rows, each a list of integers. *)
Abbreviation table := (list (list Z)).

(** [[[0] * w for _ in range(k)]]: [k] distinct rows, no aliasing between
    them. *)
Definition zero_table (k : nat) (w : Z) : table :=
  replicate k (replicate (Z.to_nat w) 0).

(** [dp_table[r][j]] *)
Definition table_get (dp_table : table) (r j : Z) : Exc Z :=
  row ← py_getitem dp_table r;
  py_getitem row j.

(** [dp_table[r][j] = v] *)
Definition table_set (dp_table : table) (r j v : Z) : Exc table :=
  row ← py_getitem dp_table r;
  row' ← py_setitem row j v;
  py_setitem dp_table r row'.

(** Body of the inner loop, shared by the rolling and the full-table
    variants: they differ only in which rows play [current_row] and
    [prev_row]. *)
Definition cell_update (seq_a seq_b : list text) (idx_a current_row prev_row : Z)
    (idx_b : Z) (dp_table : table) : Exc table :=
  x ← py_getitem seq_a (idx_a - 1);
  y ← py_getitem seq_b (idx_b - 1);
  if bool_decide (x = y) then
    diag ← table_get dp_table prev_row (idx_b - 1);
    table_set dp_table current_row idx_b (diag + 1)
  else
    up ← table_get dp_table prev_row idx_b;
    left ← table_get dp_table current_row (idx_b - 1);
    table_set dp_table current_row idx_b (Z.max up left).

Definition calculate_lcs_length (seq_a seq_b : list text) : Exc Z :=
  let n := py_len seq_a in
  let m := py_len seq_b in
  if (n =? 0) || (m =? 0) then Ok 0
  else
    let dp_table := zero_table 2 (m + 1) in
    dp_table ← for_each (py_range 1 (n + 1)) (fun idx_a dp_table =>
      let current_row := idx_a `mod` 2 in
      let prev_row := (idx_a - 1) `mod` 2 in
      for_each (py_range 1 (m + 1))
        (cell_update seq_a seq_b idx_a current_row prev_row) dp_table)
      dp_table;
    table_get dp_table (n `mod` 2) m.

Section WithLower.
Variable lower : text -> text.

Definition compute_textual_similarity (text_a text_b : PyVal) : Exc Qc :=
  clean_text_a ← TextProcessor.standardize_text lower text_a;
  clean_text_b ← TextProcessor.standardize_text lower text_b;
  let token_list_a := TextProcessor.tokenize_content clean_text_a in
  let token_list_b := TextProcessor.tokenize_content clean_text_b in
  lcs_value ← calculate_lcs_length token_list_a token_list_b;
  let base_length := py_or (py_len token_list_a) 1 in
  similarity_ratio ← py_truediv lcs_value base_length;
  Ok (py_round (py_max 0 (py_min 1 similarity_ratio)) 4).

End WithLower.

End LCSEngine.

(** ** main.py: the scoring path of [PaperCheckSystem] *)

Module PaperCheckSystem.

Record t : Type := {
  original_content : option text;
  plagiarized_content : option text;
  tokenized_original : option (list text);
  tokenized_plagiarized : option (list text)
}.

(** [PaperCheckSystem()] followed by [load_files] reading the two contents. *)
Definition loaded (orig plag : text) : t :=
  {| original_content := Some orig; plagiarized_content := Some plag;
     tokenized_original := None; tokenized_plagiarized := None |}.

(** Truth value of an [Optional[str]] attribute. *)
Definition content_truthy (c : option text) : bool :=
  match c with
  | Some s => py_truthy (PyStr s)
  | None => false
  end.

Definition content_value (c : option text) : PyVal :=
  match c with
  | Some s => PyStr s
  | None => PyNone
  end.

(** [" ".join(tokens)], where [tokens] may still be [None]. *)
Definition join_tokens (tokens : option (list text)) : Exc text :=
  match tokens with
  | Some l => Ok (str_join [SPACE] l)
  | None => Raise TypeError
  end.

Section WithLower.
Variable lower : text -> text.

Definition preprocess_texts (self : t) : Exc t :=
  self ← (if content_truthy (original_content self) then
            clean ← TextProcessor.standardize_text lower
                      (content_value (original_content self));
            Ok {| original_content := original_content self;
                  plagiarized_content := plagiarized_content self;
                  tokenized_original :=
                    Some (TextProcessor.tokenize_content clean);
                  tokenized_plagiarized := tokenized_plagiarized self |}
          else Ok self);
  if content_truthy (plagiarized_content self) then
    clean ← TextProcessor.standardize_text lower
              (content_value (plagiarized_content self));
    Ok {| original_content := original_content self;
          plagiarized_content := plagiarized_content self;
          tokenized_original := tokenized_original self;
          tokenized_plagiarized :=
            Some (TextProcessor.tokenize_content clean) |}
  else Ok self.

(** The returned score; the attributes set on the way are not observed
    afterwards.  The progress messages written to the console and the
    timing around the computation are left out. *)
Definition calculate_similarity (self : t) : Exc Qc :=
  self ← (if bool_decide (tokenized_original self = None)
             || bool_decide (tokenized_plagiarized self = None)
          then preprocess_texts self else Ok self);
  try_except
    (joined_a ← join_tokens (tokenized_original self);
     joined_b ← join_tokens (tokenized_plagiarized self);
     LCSEngine.compute_textual_similarity lower (PyStr joined_a) (PyStr joined_b))
    (fun _ => Raise RuntimeError).
End WithLower.

End PaperCheckSystem.

(** * Specifications *)

(** ** Longest common subsequence *)

(** [s] occurs, in order but not necessarily contiguously, in both [a] and
    [b]. *)
Definition common_subsequence (s a b : list text) : Prop :=
  s `sublist_of` a ∧ s `sublist_of` b.

(** [k] is the length of a longest common subsequence of [a] and [b]. *)
Definition is_lcs_length (a b : list text) (k : Z) : Prop :=
  (∃ s, common_subsequence s a b ∧ py_len s = k)
  ∧ (∀ s, common_subsequence s a b → py_len s ≤ k).

(** The entries of the DP table as a function of the indices:
    [lcs_table a b i j] is the value of [dp[i][j]] under the recurrence
    [dp[0][j] = dp[i][0] = 0],
    [dp[i][j] = dp[i-1][j-1] + 1] when [a[i-1] = b[j-1]],
    [dp[i][j] = max(dp[i-1][j], dp[i][j-1])] otherwise. *)
Fixpoint lcs_table (a b : list text) (i : nat) : nat -> Z :=
  match i with
  | O => fun _ => 0
  | S i' =>
      fix row (j : nat) : Z :=
        match j with
        | O => 0
        | S j' =>
            match a !! i', b !! j' with
            | Some x, Some y =>
                if bool_decide (x = y) then lcs_table a b i' j' + 1
                else Z.max (lcs_table a b i' j) (row j')
            | _, _ => 0
            end
        end
  end.

(** Row [i] of the table, columns [0 .. length b]. *)
Definition table_row (a b : list text) (i : nat) : list Z :=
  lcs_table a b i <$> seq 0 (S (length b)).

(** *** Invariants of the rolling loop *)

(** [row] has the right length and already holds the entries of row [i] of
    the table in columns [0 .. j]. *)
Definition row_upto (a b : list text) (i j : nat) (row : list Z) : Prop :=
  length row = S (length b)
  ∧ ∀ j', (j' ≤ j)%nat → row !! j' = Some (lcs_table a b i j').

(** State of the two buffers once row [i] is complete. *)
Definition rolling_inv (a b : list text) (i : nat) (dp : LCSEngine.table) : Prop :=
  length dp = 2%nat
  ∧ dp !! (i `mod` 2)%nat = Some (table_row a b i)
  ∧ ∃ other, dp !! (S i `mod` 2)%nat = Some other
             ∧ length other = S (length b) ∧ other !! 0%nat = Some 0.

(** *** The reference implementation: a full table, kept row by row *)

(** Cells [j+1 ..] of a row, from the row above ([above], starting at column
    [j]) and the cell just written to the left ([left], column [j]). *)
Fixpoint fill_row (x : text) (b : list text) (above : list Z) (left : Z) : list Z :=
  match b, above with
  | y :: b', diag :: above' =>
      let up := hd 0 above' in
      let v := if bool_decide (x = y) then diag + 1 else Z.max up left in
      v :: fill_row x b' above' v
  | _, _ => []
  end.

(** All rows [0 .. length a] of the table, the base row being all zeros. *)
Definition full_table (a b : list text) : list (list Z) :=
  foldl (fun rows x => rows ++ [0 :: fill_row x b (List.last rows []) 0])
        [replicate (S (length b)) 0] a.

(** [dp[n][m]] of the full table. *)
Definition lcs_full_table (a b : list text) : Z :=
  default 0 (row ← full_table a b !! length a; row !! length b).

(** ** Normalisation *)

Definition is_cjk (c : Z) : bool := (0x4E00 <=? c) && (c <=? 0x9FFF).
Definition is_digit (c : Z) : bool := (0x30 <=? c) && (c <=? 0x39).
Definition is_upper (c : Z) : bool := (0x41 <=? c) && (c <=? 0x5A).
Definition is_lower (c : Z) : bool := (0x61 <=? c) && (c <=? 0x7A).
Definition is_ascii (c : Z) : bool := (0 <=? c) && (c <=? 0x7F).

(** The allowed character domain. *)
Definition in_domain (c : Z) : bool :=
  is_cjk c || is_digit c || is_upper c || is_lower c || is_space c.

(** Every character outside the domain becomes one space. *)
Definition replace_outside_domain (s : text) : text :=
  (fun c => if in_domain c then c else SPACE) <$> s.

(** The maximal runs of [s]: consecutive characters that are all whitespace
    or all non-whitespace. *)
Fixpoint runs (s : text) : list text :=
  match s with
  | [] => []
  | c :: s' =>
      match runs s' with
      | (d :: r) :: rs =>
          if Bool.eqb (is_space c) (is_space d) then (c :: d :: r) :: rs
          else [c] :: (d :: r) :: rs
      | _ => [[c]]
      end
  end.

(** A run of two or more whitespace characters becomes one space; any other
    run is kept. *)
Definition collapse_run (r : text) : text :=
  if forallb is_space r && (2 <=? length r)%nat then [SPACE] else r.

Definition collapse_space_runs (s : text) : text :=
  concat (collapse_run <$> runs s).

(** The scan of [re.sub(r'\s{2,}', ' ', _)], from a position where [k]
    characters of a match remain to be passed over. *)
Definition scan_spaces (k : nat) (s : text) : text :=
  re_sub_scan TextProcessor.space_run [SPACE] k s.

(** The four steps, in order, on a text already known to be a [str]. *)
Definition normalize (lower : text -> text) (s : text) : text :=
  str_strip (collapse_space_runs (replace_outside_domain (lower s))).

(** ** Facts about [str.lower] *)

(** Lowercasing of an ASCII letter; every other ASCII character, and every
    character of the range U+4E00..U+9FFF, has no case. *)
Definition ascii_lower (c : Z) : Z := if is_upper c then c + 32 else c.

(** Texts made of ASCII characters and characters of U+4E00..U+9FFF. *)
Definition plain (s : text) : bool :=
  forallb (fun c => is_ascii c || is_cjk c) s.

(** What the development uses of the runtime's [str.lower]: on a text of
    ASCII characters and characters of U+4E00..U+9FFF it works character by
    character, and its result never contains an ASCII capital. *)
Record LowerFacts (lower : text -> text) : Prop := {
  lower_plain : ∀ s, plain s = true → lower s = ascii_lower <$> s;
  lower_no_upper :
    ∀ s, forallb (fun c => negb (is_upper c)) (lower s) = true
}.

(** ** The pipeline from a raw input to its token sequence *)

Definition token_sequence (lower : text -> text) (raw : PyVal) : Exc (list text) :=
  clean ← TextProcessor.standardize_text lower raw;
  Ok (TextProcessor.tokenize_content clean).

(** What [standardize_text] returns, as a total function of its input. *)
Definition clean_text (lower : text -> text) (raw : PyVal) : text :=
  match raw with
  | PyStr (c :: s) => normalize lower (c :: s)
  | _ => []
  end.

Definition tokens_of (lower : text -> text) (raw : PyVal) : list text :=
  TextProcessor.tokenize_content (clean_text lower raw).

(** The score of two token sequences:
    [round(max(0.0, min(1.0, lcs / max(1, len(tokens_a)))), 4)]. *)
Definition similarity_score (ta tb : list text) : Qc :=
  py_round
    (py_max 0
       (py_min 1
          (Q2Qc (inject_Z (lcs_table ta tb (length ta) (length tb))
                 / inject_Z (Z.max 1 (py_len ta))))))
    4.

(** ** Tokens *)

(** The characters a token can be made of: allowed, not whitespace, and not
    an ASCII capital. *)
Definition word_char (c : Z) : bool :=
  in_domain c && negb (is_upper c) && negb (is_space c).

(** Characters of a normalised text: a word character or whitespace. *)
Definition clean_char (c : Z) : bool := in_domain c && negb (is_upper c).

Definition token_ok (t : text) : Prop :=
  t ≠ [] ∧ Forall (fun c => word_char c = true) t.

(** ** Token lists of a [PaperCheckSystem] *)

(** A token list that is still [None] and whose content is unset or the
    empty text: [preprocess_texts] will not fill it. *)
Definition missing_tokens (self : PaperCheckSystem.t) : bool :=
  (bool_decide (PaperCheckSystem.tokenized_original self = None)
   && negb (PaperCheckSystem.content_truthy
              (PaperCheckSystem.original_content self)))
  || (bool_decide (PaperCheckSystem.tokenized_plagiarized self = None)
      && negb (PaperCheckSystem.content_truthy
                 (PaperCheckSystem.plagiarized_content self))).

(** The two token lists [calculate_similarity] joins: the stored ones when
    both are there, otherwise those [preprocess_texts] leaves behind. *)
Definition effective_tokens (lower : text -> text) (self : PaperCheckSystem.t)
    : option (list text) * option (list text) :=
  let refresh (content : option text) (tokens : option (list text)) :=
    if PaperCheckSystem.content_truthy content
    then Some (tokens_of lower (PaperCheckSystem.content_value content))
    else tokens in
  match PaperCheckSystem.tokenized_original self,
        PaperCheckSystem.tokenized_plagiarized self with
  | Some ta, Some tb => (Some ta, Some tb)
  | ta, tb =>
      (refresh (PaperCheckSystem.original_content self) ta,
       refresh (PaperCheckSystem.plagiarized_content self) tb)
  end.

(** ** utils/file_manager.py: the path check *)



Module FileManager.



End FileManager.


(** ** Shape of a normalised text *)

(** No two whitespace characters are next to each other. *)
Fixpoint no_space_pair (s : text) : bool :=
  match s with
  | c :: (d :: _) as s' => negb (is_space c && is_space d) && no_space_pair s'
  | _ => true
  end.

(** The characters that survive into a token. *)
Definition kept_char (c : Z) : bool := in_domain c && negb (is_space c).

(** * Proofs *)

(** Boolean comparisons on code points as linear arithmetic. *)
Ltac bool_to_Z :=
  rewrite ?andb_true_iff, ?orb_true_iff, ?negb_true_iff, ?andb_false_iff,
    ?orb_false_iff, ?Z.leb_le, ?Z.leb_gt, ?Z.eqb_eq, ?Z.eqb_neq in *.


(** ** The error monad and Python lists *)

Lemma py_index_nat {A} (l : list A) (k : nat) :
  (k < length l)%nat → py_index l (Z.of_nat k) = Ok k.
Proof.
  intros Hk. unfold py_index, py_len.
  destruct (Z.ltb_spec (Z.of_nat k) 0); [lia|].
  destruct (Z.leb_spec 0 (Z.of_nat k)); [|lia].
  destruct (Z.ltb_spec (Z.of_nat k) (Z.of_nat (length l))); [|lia].
  simpl. by rewrite Nat2Z.id.
Qed.

Lemma py_getitem_nat {A} (l : list A) (k : nat) (x : A) :
  l !! k = Some x → py_getitem l (Z.of_nat k) = Ok x.
Proof.
  intros Hx. unfold py_getitem.
  rewrite py_index_nat by (by eapply lookup_lt_Some).
  simpl. by rewrite Hx.
Qed.

Lemma py_setitem_nat {A} (l : list A) (k : nat) (x : A) :
  (k < length l)%nat → py_setitem l (Z.of_nat k) x = Ok (<[k := x]> l).
Proof. intros Hk. unfold py_setitem. by rewrite py_index_nat. Qed.

Lemma py_range_nil (lo hi : Z) : hi ≤ lo → py_range lo hi = [].
Proof. intros. unfold py_range. by replace (Z.to_nat (hi - lo)) with O by lia. Qed.

Lemma py_range_cons (lo hi : Z) :
  lo < hi → py_range lo hi = lo :: py_range (lo + 1) hi.
Proof.
  intros. unfold py_range.
  replace (Z.to_nat (hi - lo)) with (S (Z.to_nat (hi - (lo + 1)))) by lia.
  cbn [seq fmap list_fmap]. f_equal; [lia|].
  rewrite <- seq_shift, <- list_fmap_compose.
  apply list_fmap_ext. intros _ k _. simpl. lia.
Qed.

(** ** Common subsequences *)

Lemma sublist_snoc_inv (s l : list text) (x : text) :
  s `sublist_of` l ++ [x] →
  ∃ s', s' `sublist_of` l ∧ (s = s' ∨ s = s' ++ [x]).
Proof.
  intros (s1 & s2 & -> & H1 & H2)%sublist_app_r.
  exists s1. split; [done|].
  apply sublist_cons_r in H2 as [H2|(s2' & -> & H2)].
  - apply sublist_nil_r in H2 as ->. left. by rewrite app_nil_r.
  - apply sublist_nil_r in H2 as ->. by right.
Qed.

Lemma is_lcs_length_nil_l (b : list text) : is_lcs_length [] b 0.
Proof.
  split.
  - exists []. repeat split; apply sublist_nil_l.
  - intros s [Hs _]. apply sublist_nil_r in Hs as ->. done.
Qed.

Lemma is_lcs_length_nil_r (a : list text) : is_lcs_length a [] 0.
Proof.
  split.
  - exists []. repeat split; apply sublist_nil_l.
  - intros s [_ Hs]. apply sublist_nil_r in Hs as ->. done.
Qed.

Lemma is_lcs_length_snoc_eq (a b : list text) (x : text) (k : Z) :
  is_lcs_length a b k → is_lcs_length (a ++ [x]) (b ++ [x]) (k + 1).
Proof.
  intros [(s & [Ha Hb] & Hlen) Hmax]. split.
  - exists (s ++ [x]). split; [split; by apply sublist_app|].
    unfold py_len in *. rewrite length_app. simpl. lia.
  - intros t [(ta & Hta & Ea)%sublist_snoc_inv (tb & Htb & Eb)%sublist_snoc_inv].
    assert (Hpre : ∀ u, t = u ++ [x] → py_len t = py_len u + 1).
    { intros u ->. unfold py_len. rewrite length_app. simpl. lia. }
    destruct Ea as [->| ->], Eb as [Eb|Eb].
    + subst tb. specialize (Hmax ta (conj Hta Htb)). lia.
    + assert (tb `sublist_of` a).
      { etrans; [|exact Hta]. rewrite Eb. by apply sublist_inserts_r. }
      specialize (Hmax tb (conj H Htb)). rewrite (Hpre _ Eb). lia.
    + subst tb.
      assert (ta `sublist_of` b).
      { etrans; [|exact Htb]. by apply sublist_inserts_r. }
      specialize (Hmax ta (conj Hta H)). rewrite (Hpre _ eq_refl). lia.
    + apply app_inj_tail in Eb as [-> _].
      specialize (Hmax tb (conj Hta Htb)). rewrite (Hpre _ eq_refl). lia.
Qed.

Lemma is_lcs_length_snoc_ne (a b : list text) (x y : text) (k1 k2 : Z) :
  x ≠ y →
  is_lcs_length a (b ++ [y]) k1 →
  is_lcs_length (a ++ [x]) b k2 →
  is_lcs_length (a ++ [x]) (b ++ [y]) (Z.max k1 k2).
Proof.
  intros Hxy [(s1 & [Ha1 Hb1] & Hlen1) Hmax1] [(s2 & [Ha2 Hb2] & Hlen2) Hmax2].
  split.
  - destruct (Z.max_spec k1 k2) as [[_ ->]|[_ ->]].
    + exists s2. repeat split; [done| |done]. by apply sublist_inserts_r.
    + exists s1. repeat split; [|done|done]. by apply sublist_inserts_r.
  - intros t [Hta Htb].
    destruct (sublist_snoc_inv _ _ _ Hta) as (ta & Hta' & Ea).
    destruct (sublist_snoc_inv _ _ _ Htb) as (tb & Htb' & Eb).
    destruct Ea as [->| ->].
    + specialize (Hmax1 ta (conj Hta' Htb)). lia.
    + destruct Eb as [Eb|Eb].
      * rewrite Eb in *. specialize (Hmax2 tb (conj Hta Htb')). lia.
      * apply app_inj_tail in Eb as [_ ?]. done.
Qed.

(** ** The recurrence computes the LCS length *)

Lemma lcs_table_0_r (a b : list text) (i : nat) : lcs_table a b i 0 = 0.
Proof. by destruct i. Qed.

Lemma lcs_table_eq (a b : list text) (i j : nat) (x : text) :
  a !! i = Some x → b !! j = Some x →
  lcs_table a b (S i) (S j) = lcs_table a b i j + 1.
Proof.
  intros Ha Hb. simpl. rewrite Ha, Hb. by rewrite bool_decide_eq_true_2.
Qed.

Lemma lcs_table_ne (a b : list text) (i j : nat) (x y : text) :
  a !! i = Some x → b !! j = Some y → x ≠ y →
  lcs_table a b (S i) (S j)
  = Z.max (lcs_table a b i (S j)) (lcs_table a b (S i) j).
Proof.
  intros Ha Hb Hxy. simpl. rewrite Ha, Hb. by rewrite bool_decide_eq_false_2.
Qed.

Arguments lcs_table : simpl never.

Lemma lcs_table_correct (a b : list text) (i j : nat) :
  (i ≤ length a)%nat → (j ≤ length b)%nat →
  is_lcs_length (take i a) (take j b) (lcs_table a b i j).
Proof.
  revert j. induction i as [|i IHi]; intros j Hi Hj.
  { apply is_lcs_length_nil_l. }
  induction j as [|j IHj].
  { rewrite lcs_table_0_r. apply is_lcs_length_nil_r. }
  destruct (lookup_lt_is_Some_2 a i) as [x Hx]; [lia|].
  destruct (lookup_lt_is_Some_2 b j) as [y Hy]; [lia|].
  rewrite (take_S_r a i x), (take_S_r b j y) by done.
  destruct (decide (x = y)) as [->|Hxy].
  - rewrite (lcs_table_eq a b i j y) by done.
    apply is_lcs_length_snoc_eq, IHi; lia.
  - rewrite (lcs_table_ne a b i j x y) by done.
    apply is_lcs_length_snoc_ne; [done| |].
    + rewrite <- (take_S_r b j y) by done. apply IHi; lia.
    + rewrite <- (take_S_r a i x) by done. apply IHj; lia.
Qed.

Lemma lcs_table_whole (a b : list text) :
  is_lcs_length a b (lcs_table a b (length a) (length b)).
Proof.
  rewrite <- (firstn_all a) at 1. rewrite <- (firstn_all b) at 1.
  by apply lcs_table_correct.
Qed.

Lemma is_lcs_length_unique (a b : list text) (k1 k2 : Z) :
  is_lcs_length a b k1 → is_lcs_length a b k2 → k1 = k2.
Proof.
  intros [(s1 & Hs1 & <-) Hmax1] [(s2 & Hs2 & <-) Hmax2].
  specialize (Hmax1 _ Hs2). specialize (Hmax2 _ Hs1). lia.
Qed.

Lemma is_lcs_length_bounds (a b : list text) (k : Z) :
  is_lcs_length a b k → 0 ≤ k ≤ Z.min (py_len a) (py_len b).
Proof.
  intros [(s & [Ha Hb] & <-) _].
  apply sublist_length in Ha, Hb. unfold py_len. lia.
Qed.

Lemma is_lcs_length_diag (a : list text) : is_lcs_length a a (py_len a).
Proof.
  split.
  - exists a. by repeat split.
  - intros s [Hs _]. apply sublist_length in Hs. unfold py_len. lia.
Qed.

Lemma table_row_length (a b : list text) (i : nat) :
  length (table_row a b i) = S (length b).
Proof. unfold table_row. by rewrite length_fmap, length_seq. Qed.

Lemma table_row_lookup (a b : list text) (i j : nat) :
  (j ≤ length b)%nat → table_row a b i !! j = Some (lcs_table a b i j).
Proof.
  intros Hj. unfold table_row.
  rewrite list_lookup_fmap, lookup_seq_lt by lia. done.
Qed.

Lemma table_row_0 (a b : list text) :
  table_row a b 0 = replicate (S (length b)) 0.
Proof.
  unfold table_row. change (lcs_table a b 0) with (fun _ : nat => 0).
  generalize (S (length b)), 0%nat.
  intros n. induction n as [|n IH]; intros s; [done|].
  simpl. f_equal. apply IH.
Qed.

(** ** The rolling two-row loop *)

Section RollingLoop.
Variables a b : list text.

Lemma row_upto_full (i : nat) (row : list Z) :
  row_upto a b i (length b) row → row = table_row a b i.
Proof.
  intros [Hlen Hrow]. apply list_eq. intros j.
  destruct (decide (j ≤ length b)%nat) as [Hj|Hj].
  - by rewrite Hrow, table_row_lookup.
  - rewrite !lookup_ge_None_2; [done| |]; rewrite ?table_row_length; lia.
Qed.

Lemma row_upto_insert (i j : nat) (row : list Z) :
  (j < length b)%nat →
  row_upto a b i j row →
  row_upto a b i (S j) (<[S j := lcs_table a b i (S j)]> row).
Proof.
  intros Hj [Hlen Hrow]. split; [by rewrite length_insert|].
  intros j' Hj'. destruct (decide (j' = S j)) as [->|Hne].
  - rewrite list_lookup_insert_eq; [done|lia].
  - rewrite list_lookup_insert_ne by done. apply Hrow. lia.
Qed.

Lemma table_get_nat (dp : LCSEngine.table) (r j : nat) (row : list Z) (v : Z) :
  dp !! r = Some row → row !! j = Some v →
  LCSEngine.table_get dp (Z.of_nat r) (Z.of_nat j) = Ok v.
Proof.
  intros Hr Hj. unfold LCSEngine.table_get.
  rewrite (py_getitem_nat _ _ _ Hr). simpl. by apply py_getitem_nat.
Qed.

Lemma table_set_nat (dp : LCSEngine.table) (r j : nat) (row : list Z) (v : Z) :
  dp !! r = Some row → (j < length row)%nat →
  LCSEngine.table_set dp (Z.of_nat r) (Z.of_nat j) v
  = Ok (<[r := <[j := v]> row]> dp).
Proof.
  intros Hr Hj. unfold LCSEngine.table_set.
  rewrite (py_getitem_nat _ _ _ Hr). simpl.
  rewrite py_setitem_nat by done. simpl.
  apply py_setitem_nat. by eapply lookup_lt_Some.
Qed.

(** One cell: column [j+1] of row [i+1]. *)
Lemma cell_update_spec (dp : LCSEngine.table) (cur prev i j : nat)
    (row : list Z) :
  cur ≠ prev → (i < length a)%nat → (j < length b)%nat →
  dp !! prev = Some (table_row a b i) →
  dp !! cur = Some row →
  row_upto a b (S i) j row →
  LCSEngine.cell_update a b (Z.of_nat (S i)) (Z.of_nat cur) (Z.of_nat prev)
    (Z.of_nat (S j)) dp
  = Ok (<[cur := <[S j := lcs_table a b (S i) (S j)]> row]> dp).
Proof.
  intros Hne Hi Hj Hprev Hcur [Hlen Hrow].
  destruct (lookup_lt_is_Some_2 a i) as [x Hx]; [lia|].
  destruct (lookup_lt_is_Some_2 b j) as [y Hy]; [lia|].
  unfold LCSEngine.cell_update.
  replace (Z.of_nat (S i) - 1) with (Z.of_nat i) by lia.
  replace (Z.of_nat (S j) - 1) with (Z.of_nat j) by lia.
  rewrite (py_getitem_nat _ _ _ Hx). simpl.
  rewrite (py_getitem_nat _ _ _ Hy). simpl.
  case_bool_decide as Hxy.
  - subst y.
    rewrite (table_get_nat dp prev j _ (lcs_table a b i j) Hprev)
      by (apply table_row_lookup; lia).
    simpl. rewrite (table_set_nat dp cur (S j) row) by (done || lia).
    by rewrite (lcs_table_eq a b i j x).
  - rewrite (table_get_nat dp prev (S j) _ (lcs_table a b i (S j)) Hprev)
      by (apply table_row_lookup; lia).
    simpl.
    rewrite (table_get_nat dp cur j row (lcs_table a b (S i) j) Hcur)
      by (apply Hrow; lia).
    simpl. rewrite (table_set_nat dp cur (S j) row) by (done || lia).
    by rewrite (lcs_table_ne a b i j x y).
Qed.

(** The inner loop from column [j+1] on. *)
Lemma inner_loop_spec (cur prev i : nat) :
  cur ≠ prev → (i < length a)%nat →
  ∀ (k j : nat) (dp : LCSEngine.table) (row : list Z),
    (j + k = length b)%nat →
    dp !! prev = Some (table_row a b i) →
    dp !! cur = Some row →
    row_upto a b (S i) j row →
    for_each (py_range (Z.of_nat (S j)) (Z.of_nat (S (length b))))
      (LCSEngine.cell_update a b (Z.of_nat (S i)) (Z.of_nat cur) (Z.of_nat prev))
      dp
    = Ok (<[cur := table_row a b (S i)]> dp).
Proof.
  intros Hne Hi k. induction k as [|k IH]; intros j dp row Hjk Hprev Hcur Hrow.
  - rewrite py_range_nil by lia. simpl.
    replace j with (length b) in Hrow by lia.
    apply row_upto_full in Hrow as <-.
    by rewrite list_insert_id.
  - rewrite py_range_cons by lia. cbn [for_each].
    rewrite (cell_update_spec dp cur prev i j row) by (done || lia).
    simpl. replace (Z.of_nat (S j) + 1) with (Z.of_nat (S (S j))) by lia.
    assert (Hc : (cur < length dp)%nat) by (by eapply lookup_lt_Some).
    erewrite (IH (S j)); [by rewrite list_insert_insert_eq|lia| | |].
    + by rewrite list_lookup_insert_ne.
    + by rewrite list_lookup_insert_eq.
    + apply row_upto_insert; [lia|done].
Qed.

Lemma rolling_inv_init :
  rolling_inv a b 0 (LCSEngine.zero_table 2 (py_len b + 1)).
Proof.
  unfold LCSEngine.zero_table, py_len.
  replace (Z.to_nat (Z.of_nat (length b) + 1)) with (S (length b)) by lia.
  split; [done|]. split.
  - by rewrite table_row_0.
  - exists (replicate (S (length b)) 0). split; [done|].
    split; [by rewrite length_replicate|done].
Qed.

Lemma parity_flip (i : nat) : (S i `mod` 2 ≠ i `mod` 2)%nat.
Proof.
  pose proof (Nat.div_mod_eq (S i) 2). pose proof (Nat.div_mod_eq i 2).
  pose proof (Nat.mod_upper_bound (S i) 2). pose proof (Nat.mod_upper_bound i 2).
  lia.
Qed.

Lemma parity_next (i : nat) : (S (S i) `mod` 2 = i `mod` 2)%nat.
Proof.
  pose proof (Nat.div_mod_eq (S (S i)) 2). pose proof (Nat.div_mod_eq i 2).
  pose proof (Nat.mod_upper_bound (S (S i)) 2).
  pose proof (Nat.mod_upper_bound i 2).
  lia.
Qed.

Lemma rolling_row_spec (i : nat) (dp : LCSEngine.table) :
  (i < length a)%nat → rolling_inv a b i dp →
  ∃ dp',
    for_each (py_range 1 (py_len b + 1))
      (LCSEngine.cell_update a b (Z.of_nat (S i))
         (Z.of_nat (S i) `mod` 2) ((Z.of_nat (S i) - 1) `mod` 2)) dp
    = Ok dp'
    ∧ rolling_inv a b (S i) dp'.
Proof.
  intros Hi (Hlen & Hprev & other & Hcur & Holen & Ho0).
  exists (<[(S i `mod` 2)%nat := table_row a b (S i)]> dp).
  split.
  - replace (Z.of_nat (S i) - 1) with (Z.of_nat i) by lia.
    change 2 with (Z.of_nat 2). rewrite <- !Nat2Z.inj_mod.
    replace (py_len b + 1) with (Z.of_nat (S (length b)))
      by (unfold py_len; lia).
    apply (inner_loop_spec _ _ i (parity_flip i) Hi (length b) 0%nat dp other);
      [done..|].
    split; [done|]. intros j' Hj'. replace j' with 0%nat by lia.
    by rewrite lcs_table_0_r.
  - split; [by rewrite length_insert|]. split.
    + rewrite list_lookup_insert_eq; [done|].
      rewrite Hlen. apply Nat.mod_upper_bound. done.
    + exists (table_row a b i). rewrite parity_next.
      rewrite list_lookup_insert_ne by apply parity_flip.
      split; [done|]. split; [apply table_row_length|].
      rewrite table_row_lookup by lia. by rewrite lcs_table_0_r.
Qed.

(** The outer loop from row [i+1] on. *)
Lemma outer_loop_spec (k i : nat) (dp : LCSEngine.table) :
  (i + k = length a)%nat → rolling_inv a b i dp →
  ∃ dp',
    for_each (py_range (Z.of_nat (S i)) (py_len a + 1))
      (fun idx_a dp_table =>
         for_each (py_range 1 (py_len b + 1))
           (LCSEngine.cell_update a b idx_a (idx_a `mod` 2)
              ((idx_a - 1) `mod` 2)) dp_table) dp
    = Ok dp'
    ∧ rolling_inv a b (length a) dp'.
Proof.
  revert i dp. induction k as [|k IH]; intros i dp Hik Hinv.
  - exists dp. rewrite py_range_nil by (unfold py_len; lia).
    split; [done|]. by replace (length a) with i by lia.
  - rewrite py_range_cons by (unfold py_len; lia). cbn [for_each].
    destruct (rolling_row_spec i dp) as (dp1 & -> & Hinv1); [lia|done|].
    simpl. replace (Z.of_nat (S i) + 1) with (Z.of_nat (S (S i))) by lia.
    apply IH; [lia|done].
Qed.

(** The code returns the last entry of the table. *)
Lemma calculate_lcs_length_table :
  LCSEngine.calculate_lcs_length a b
  = Ok (lcs_table a b (length a) (length b)).
Proof.
  unfold LCSEngine.calculate_lcs_length.
  destruct (Z.eqb_spec (py_len a) 0) as [Ha|Ha]; simpl.
  { destruct a; [done|discriminate]. }
  destruct (Z.eqb_spec (py_len b) 0) as [Hb|Hb]; simpl.
  { destruct b; [|discriminate]. by rewrite lcs_table_0_r. }
  destruct (outer_loop_spec (length a) 0 _ eq_refl rolling_inv_init)
    as (dp & Hrun & _ & Hrow & _).
  change (Z.of_nat 1) with 1 in Hrun. rewrite Hrun.
  simpl. unfold py_len.
  change 2 with (Z.of_nat 2). rewrite <- Nat2Z.inj_mod.
  apply (table_get_nat _ _ _ _ _ Hrow), table_row_lookup. lia.
Qed.
End RollingLoop.

(** ** The full-table reference *)

Section FullTable.
Variables a b : list text.

Lemma fill_row_spec (i : nat) (x : text) :
  a !! i = Some x →
  ∀ k j : nat,
    (j + k = length b)%nat →
    fill_row x (drop j b) (drop j (table_row a b i)) (lcs_table a b (S i) j)
    = lcs_table a b (S i) <$> seq (S j) k.
Proof.
  intros Hx k. induction k as [|k IH]; intros j Hjk.
  - rewrite drop_ge by lia. done.
  - destruct (lookup_lt_is_Some_2 b j) as [y Hy]; [lia|].
    rewrite (drop_S b y j Hy).
    rewrite (drop_S (table_row a b i) (lcs_table a b i j) j)
      by (apply table_row_lookup; lia).
    rewrite (drop_S (table_row a b i) (lcs_table a b i (S j)) (S j))
      by (apply table_row_lookup; lia).
    cbn [fill_row hd seq fmap list_fmap].
    rewrite <- (drop_S (table_row a b i) (lcs_table a b i (S j)) (S j))
      by (apply table_row_lookup; lia).
    assert (Hv : (if bool_decide (x = y) then lcs_table a b i j + 1
                  else Z.max (lcs_table a b i (S j)) (lcs_table a b (S i) j))
                 = lcs_table a b (S i) (S j)).
    { case_bool_decide as Hxy.
      - subst y. by rewrite (lcs_table_eq a b i j x).
      - by rewrite (lcs_table_ne a b i j x y). }
    rewrite Hv. f_equal. apply IH. lia.
Qed.

Lemma next_row_spec (i : nat) (x : text) :
  a !! i = Some x →
  0 :: fill_row x b (table_row a b i) 0 = table_row a b (S i).
Proof.
  intros Hx.
  pose proof (fill_row_spec i x Hx (length b) 0 eq_refl) as H.
  rewrite !drop_0, lcs_table_0_r in H. rewrite H.
  unfold table_row. cbn [seq fmap list_fmap]. by rewrite lcs_table_0_r.
Qed.

Lemma full_table_prefix (i : nat) :
  (i ≤ length a)%nat →
  foldl (fun rows x => rows ++ [0 :: fill_row x b (List.last rows []) 0])
        [replicate (S (length b)) 0] (take i a)
  = table_row a b <$> seq 0 (S i).
Proof.
  induction i as [|i IH]; intros Hi.
  - simpl. by rewrite table_row_0.
  - destruct (lookup_lt_is_Some_2 a i) as [x Hx]; [lia|].
    rewrite (take_S_r a i x Hx), foldl_app. cbn [foldl].
    rewrite IH by lia.
    assert (Hrows : table_row a b <$> seq 0 (S i)
                    = (table_row a b <$> seq 0 i) ++ [table_row a b i]).
    { by rewrite seq_S, fmap_app. }
    rewrite (seq_S (S i)), fmap_app. cbn [fmap list_fmap plus].
    f_equal. f_equal.
    rewrite Hrows, last_last. by apply next_row_spec.
Qed.

Lemma lcs_full_table_table :
  lcs_full_table a b = lcs_table a b (length a) (length b).
Proof.
  pose proof (full_table_prefix (length a) (le_n _)) as H.
  rewrite firstn_all in H.
  unfold lcs_full_table, full_table. rewrite H.
  rewrite list_lookup_fmap, lookup_seq_lt by lia. simpl.
  by rewrite table_row_lookup.
Qed.
End FullTable.

(** ** The two substitutions of [standardize_text] *)

Lemma disallowed_class_matches (c : Z) :
  match_at TextProcessor.disallowed (c :: []) = 
  if in_domain c then None else Some 1%nat.
Proof.
  unfold TextProcessor.disallowed, match_at, class_matches, in_domain.
  cbn [negated items existsb item_matches].
  change (is_cjk c) with ((0x4e00 <=? c) && (c <=? 0x9fff)).
  change (is_digit c) with ((0x30 <=? c) && (c <=? 0x39)).
  change (is_upper c) with ((0x41 <=? c) && (c <=? 0x5a)).
  change (is_lower c) with ((0x61 <=? c) && (c <=? 0x7a)).
  rewrite orb_false_r, !orb_assoc.
  by destruct (_ || is_space c).
Qed.

Lemma re_sub_disallowed (s : text) :
  re_sub TextProcessor.disallowed [SPACE] s = replace_outside_domain s.
Proof.
  unfold re_sub, replace_outside_domain.
  induction s as [|c s IH]; [done|].
  cbn [re_sub_scan fmap list_fmap].
  change (match_at TextProcessor.disallowed (c :: s))
    with (match_at TextProcessor.disallowed (c :: [])).
  rewrite disallowed_class_matches.
  destruct (in_domain c); simpl; by rewrite IH.
Qed.

(** *** Collapsing runs of whitespace *)

Lemma ws_matches (c : Z) : class_matches TextProcessor.space_class c = is_space c.
Proof. unfold class_matches. simpl. by rewrite orb_false_r. Qed.

Lemma scan_skip (s : text) (k : nat) : scan_spaces k s = scan_spaces 0%nat (drop k s).
Proof.
  revert k. induction s as [|c s IH]; intros [|k]; try done.
  simpl. apply IH.
Qed.

Lemma run_length_space (c : Z) (s : text) :
  is_space c = true →
  run_length TextProcessor.space_class (c :: s)
  = S (run_length TextProcessor.space_class s).
Proof. intros Hc. simpl. by rewrite ws_matches, Hc. Qed.

Lemma run_length_nonspace (c : Z) (s : text) :
  is_space c = false → run_length TextProcessor.space_class (c :: s) = 0%nat.
Proof. intros Hc. simpl. by rewrite ws_matches, Hc. Qed.

Lemma scan_nonspace (c : Z) (s : text) :
  is_space c = false → scan_spaces 0%nat (c :: s) = c :: scan_spaces 0%nat s.
Proof.
  intros Hc. unfold scan_spaces. cbn [re_sub_scan].
  unfold match_at, TextProcessor.space_run. fold TextProcessor.space_class.
  by rewrite (run_length_nonspace c s Hc).
Qed.

(** A lone whitespace character is kept. *)
Lemma scan_space_single (c : Z) (s : text) :
  is_space c = true → run_length TextProcessor.space_class s = 0%nat →
  scan_spaces 0%nat (c :: s) = c :: scan_spaces 0%nat s.
Proof.
  intros Hc Hs. unfold scan_spaces. cbn [re_sub_scan].
  unfold match_at, TextProcessor.space_run. fold TextProcessor.space_class.
  by rewrite (run_length_space c s Hc), Hs.
Qed.

(** A longer run is replaced as a whole. *)
Lemma scan_space_run (c : Z) (s : text) :
  is_space c = true → run_length TextProcessor.space_class s ≠ 0%nat →
  scan_spaces 0%nat (c :: s)
  = SPACE :: scan_spaces 0%nat (drop (run_length TextProcessor.space_class s) s).
Proof.
  intros Hc Hs. unfold scan_spaces at 1. cbn [re_sub_scan].
  unfold match_at, TextProcessor.space_run. fold TextProcessor.space_class.
  rewrite (run_length_space c s Hc).
  destruct (run_length TextProcessor.space_class s) as [|k] eqn:Hk; [done|].
  simpl. f_equal. apply scan_skip.
Qed.

(** Whatever the length of the run at the head, one character comes out
    for it. *)
Lemma scan_space_head (d : Z) (s : text) :
  is_space d = true →
  ∃ x, scan_spaces 0%nat (d :: s)
       = x :: scan_spaces 0%nat
                (drop (run_length TextProcessor.space_class (d :: s)) (d :: s)).
Proof.
  intros Hd. rewrite (run_length_space d s Hd). cbn [drop].
  destruct (decide (run_length TextProcessor.space_class s = 0%nat)) as [Hs|Hs].
  - exists d. rewrite scan_space_single by done. by rewrite Hs.
  - exists SPACE. by apply scan_space_run.
Qed.

Lemma runs_head (s : text) :
  ∀ (r : text) (rs : list text),
    runs s = r :: rs →
    ∃ d r' s', s = d :: s' ∧ r = d :: r'
               ∧ Forall (fun x => is_space x = is_space d) r'.
Proof.
  induction s as [|c s IH]; [done|].
  intros r rs H. cbn [runs] in H.
  destruct (runs s) as [|[|d r0] rs'] eqn:Hs.
  - injection H as <- <-. by exists c, [], s.
  - injection H as <- <-. by exists c, [], s.
  - destruct (IH _ _ eq_refl) as (e & r' & s' & _ & Er & HF).
    injection Er as <- <-.
    destruct (Bool.eqb (is_space c) (is_space d)) eqn:Hcd.
    + injection H as <- <-. exists c, (d :: r0), s.
      apply Bool.eqb_prop in Hcd.
      split; [done|]. split; [done|].
      constructor; [done|].
      eapply Forall_impl; [|exact HF]. intros x Hx. simpl in Hx. congruence.
    + injection H as <- <-. by exists c, [], s.
Qed.

Lemma runs_cons_nonempty (c : Z) (s : text) : runs (c :: s) ≠ [].
Proof.
  cbn [runs]. destruct (runs s) as [|[|d r0] rs']; [done..|].
  by destruct (Bool.eqb _ _).
Qed.

Lemma collapse_run_nonspace (d : Z) (r : text) :
  is_space d = false → collapse_run (d :: r) = d :: r.
Proof. intros Hd. unfold collapse_run. simpl. by rewrite Hd. Qed.

Lemma collapse_run_single (c : Z) : collapse_run [c] = [c].
Proof. unfold collapse_run. simpl. by rewrite !andb_false_r. Qed.

Lemma collapse_run_spaces (c d : Z) (r : text) :
  is_space c = true → is_space d = true →
  Forall (fun x => is_space x = true) r →
  collapse_run (c :: d :: r) = [SPACE].
Proof.
  intros Hc Hd Hr. unfold collapse_run.
  assert (forallb is_space (c :: d :: r) = true) as ->; [|done].
  simpl. rewrite Hc, Hd. simpl.
  apply forallb_forall. intros x Hx.
  rewrite Forall_forall in Hr. by rewrite (Hr x Hx).
Qed.

Lemma collapse_cons_nonspace (c : Z) (s : text) :
  is_space c = false →
  collapse_space_runs (c :: s) = c :: collapse_space_runs s.
Proof.
  intros Hc. unfold collapse_space_runs. cbn [runs].
  destruct (runs s) as [|[|d r0] rs'] eqn:Hs.
  - cbn [fmap list_fmap concat]. by rewrite collapse_run_single.
  - by destruct (runs_head s _ _ Hs) as (? & ? & ? & _ & ? & _).
  - destruct (Bool.eqb (is_space c) (is_space d)) eqn:Hcd.
    + apply Bool.eqb_prop in Hcd.
      cbn [fmap list_fmap concat].
      rewrite !collapse_run_nonspace by congruence. done.
    + cbn [fmap list_fmap concat]. by rewrite collapse_run_single.
Qed.

(** The scan of [re.sub] and the run-by-run description agree. *)
Lemma re_sub_space_run (s : text) :
  re_sub TextProcessor.space_run [SPACE] s = collapse_space_runs s.
Proof.
  unfold re_sub.
  change (re_sub_scan TextProcessor.space_run [SPACE]) with scan_spaces.
  induction s as [|c s IH]; [done|].
  destruct (is_space c) eqn:Hc.
  2:{ rewrite scan_nonspace, collapse_cons_nonspace by done. by f_equal. }
  destruct s as [|d s].
  { unfold collapse_space_runs. cbn [runs fmap list_fmap concat].
    rewrite collapse_run_single. by rewrite scan_space_single. }
  pose proof (runs_cons_nonempty d s) as Hne.
  destruct (runs (d :: s)) as [|r rs] eqn:Hruns; [done|]. clear Hne.
  destruct (runs_head _ _ _ Hruns) as (d' & r0 & s' & Es & -> & HF).
  injection Es as <- <-.
  unfold collapse_space_runs in *.
  change (runs (c :: d :: s))
    with (match runs (d :: s) with
          | (d :: r) :: rs =>
              if Bool.eqb (is_space c) (is_space d) then (c :: d :: r) :: rs
              else [c] :: (d :: r) :: rs
          | _ => [[c]]
          end).
  rewrite Hruns in *.
  destruct (is_space d) eqn:Hd.
  - rewrite Hc. cbn [Bool.eqb fmap list_fmap concat].
    rewrite (collapse_run_spaces c d r0) by done.
    rewrite scan_space_run by (rewrite ?run_length_space; done).
    cbn [app]. f_equal.
    destruct (scan_space_head d s Hd) as (x & Hx).
    rewrite Hx in IH. cbn [fmap list_fmap concat] in IH.
    assert (∃ z, collapse_run (d :: r0) = [z]) as [z Hz].
    { destruct r0 as [|e r0].
      - exists d. apply collapse_run_single.
      - exists SPACE. inversion HF; subst.
        by apply collapse_run_spaces. }
    rewrite Hz in IH. by injection IH.
  - rewrite Hc. cbn [Bool.eqb fmap list_fmap concat].
    rewrite collapse_run_single.
    rewrite scan_space_single by (by rewrite ?run_length_nonspace).
    cbn [app]. f_equal. exact IH.
Qed.

(** ** Scores *)

Lemma Qc_eq_of_Qeq (p : Q) (q : Qc) : (p == q)%Q → Q2Qc p = q.
Proof.
  intros H. apply Qc_is_canon. simpl. by rewrite Qred_correct.
Qed.

Lemma Q2Qc_le (p q : Q) : (p <= q)%Q → (Q2Qc p <= Q2Qc q)%Qc.
Proof. intros H. unfold Qcle. simpl. by rewrite !Qred_correct. Qed.

Lemma py_min_le (a q : Qc) : (py_min a q <= a)%Qc.
Proof.
  unfold py_min. destruct (Qclt_le_dec q a) as [H|H].
  - by apply Qclt_le_weak.
  - apply Qcle_refl.
Qed.

Lemma py_max_ge (a q : Qc) : (a <= py_max a q)%Qc.
Proof.
  unfold py_max. destruct (Qclt_le_dec a q) as [H|H].
  - by apply Qclt_le_weak.
  - apply Qcle_refl.
Qed.

Lemma py_max_le (a q c : Qc) : (a <= c)%Qc → (q <= c)%Qc → (py_max a q <= c)%Qc.
Proof. intros Ha Hq. unfold py_max. by destruct (Qclt_le_dec a q). Qed.

(** The clamp [max(0.0, min(1.0, q))] lands in the unit interval. *)
Lemma clamp_bounds (q : Qc) :
  (0 <= py_max 0 (py_min 1 q))%Qc ∧ (py_max 0 (py_min 1 q) <= 1)%Qc.
Proof.
  split; [apply py_max_ge|].
  apply py_max_le; [done|apply py_min_le].
Qed.

Lemma round_half_even_cases (x : Q) :
  round_half_even x = Qfloor x
  ∨ (round_half_even x = Qfloor x + 1 ∧ (inject_Z (Qfloor x) < x)%Q).
Proof.
  unfold round_half_even.
  destruct (x - inject_Z (Qfloor x) ?= 1 # 2)%Q eqn:Hcmp.
  - apply Qeq_alt in Hcmp.
    destruct (Z.even (Qfloor x)); [by left|right]. split; [done|].
    apply (Qplus_lt_l _ _ (- inject_Z (Qfloor x))).
    rewrite Qplus_opp_r. unfold Qminus in Hcmp. by rewrite Hcmp.
  - by left.
  - apply Qgt_alt in Hcmp. right. split; [done|].
    apply (Qplus_lt_l _ _ (- inject_Z (Qfloor x))).
    rewrite Qplus_opp_r. unfold Qminus in Hcmp.
    eapply Qlt_trans; [|exact Hcmp]. done.
Qed.

Lemma round_half_even_bounds (x : Q) (n : Z) :
  (0 <= x)%Q → (x <= inject_Z n)%Q → 0 ≤ round_half_even x ≤ n.
Proof.
  intros H0 Hn.
  assert (Hf0 : 0 ≤ Qfloor x).
  { change 0 with (Qfloor (inject_Z 0)). by apply Qfloor_resp_le. }
  assert (Hfn : Qfloor x ≤ n).
  { rewrite <- (Qfloor_Z n). by apply Qfloor_resp_le. }
  destruct (round_half_even_cases x) as [->|[-> Hlt]]; [lia|].
  split; [lia|].
  assert (Qfloor x < n); [|lia].
  rewrite Zlt_Qlt. by eapply Qlt_le_trans.
Qed.

(** Rounding to four digits keeps a score in the unit interval. *)
Lemma py_round_bounds (q : Qc) :
  (0 <= q)%Qc → (q <= 1)%Qc → (0 <= py_round q 4)%Qc ∧ (py_round q 4 <= 1)%Qc.
Proof.
  intros H0 H1. unfold py_round.
  set (scale := inject_Z (10 ^ Z.of_nat 4)).
  assert (Hs : (0 < scale)%Q) by done.
  destruct (round_half_even_bounds (q * scale)%Q (10 ^ Z.of_nat 4)) as [Hk0 Hk1].
  { apply Qmult_le_0_compat; [exact H0|by apply Qlt_le_weak]. }
  { fold scale. rewrite <- (Qmult_1_l scale) at 2.
    apply Qmult_le_compat_r; [exact H1|by apply Qlt_le_weak]. }
  set (k := round_half_even (q * scale)%Q) in *.
  split.
  - change 0%Qc with (Q2Qc 0). apply Q2Qc_le.
    apply Qle_shift_div_l; [done|]. rewrite Qmult_0_l.
    change 0%Q with (inject_Z 0). by rewrite <- Zle_Qle.
  - change 1%Qc with (Q2Qc 1). apply Q2Qc_le.
    apply Qle_shift_div_r; [done|]. rewrite Qmult_1_l.
    unfold scale. by rewrite <- Zle_Qle.
Qed.

Lemma py_round_0 : py_round 0 4 = 0%Qc.
Proof. by apply Qc_is_canon. Qed.

Lemma py_round_1 : py_round 1 4 = 1%Qc.
Proof. by apply Qc_is_canon. Qed.

Lemma clamp_0 : py_max 0 (py_min 1 0) = 0%Qc.
Proof. done. Qed.

Lemma clamp_1 : py_max 0 (py_min 1 1) = 1%Qc.
Proof. done. Qed.

Lemma py_or_1_max (n : Z) : 0 ≤ n → py_or n 1 = Z.max 1 n.
Proof. intros Hn. unfold py_or. destruct (Z.eqb_spec n 0); lia. Qed.

Lemma py_truediv_ok (l base : Z) :
  base ≠ 0 → py_truediv l base = Ok (Q2Qc (inject_Z l / inject_Z base)).
Proof. intros Hb. unfold py_truediv. by destruct (Z.eqb_spec base 0). Qed.

Lemma ratio_0 (base : Z) : Q2Qc (inject_Z 0 / inject_Z base) = 0%Qc.
Proof. apply Qc_eq_of_Qeq. unfold Qdiv. by rewrite Qmult_0_l. Qed.

Lemma ratio_1 (n : Z) : n ≠ 0 → Q2Qc (inject_Z n / inject_Z n) = 1%Qc.
Proof.
  intros Hn. apply Qc_eq_of_Qeq. apply Qmult_inv_r.
  change 0%Q with (inject_Z 0). by rewrite inject_Z_injective.
Qed.

(** ** The pipeline is total *)

Section Pipeline.
Variable lower : text -> text.

Lemma standardize_text_clean (v : PyVal) :
  TextProcessor.standardize_text lower v = Ok (clean_text lower v).
Proof.
  unfold TextProcessor.standardize_text.
  destruct v as [|[]|z|[|c s]|[]]; try done.
  - simpl. by rewrite orb_true_r.
  - simpl. by rewrite re_sub_disallowed, re_sub_space_run.
Qed.

Lemma token_sequence_tokens (v : PyVal) :
  token_sequence lower v = Ok (tokens_of lower v).
Proof. unfold token_sequence. by rewrite standardize_text_clean. Qed.

Lemma base_length_pos (tokens : list text) : 1 ≤ py_or (py_len tokens) 1.
Proof. unfold py_or, py_len. destruct (Z.eqb_spec (Z.of_nat (length tokens)) 0); lia. Qed.

(** The score in closed form. *)
Lemma similarity_unfold (text_a text_b : PyVal) :
  LCSEngine.compute_textual_similarity lower text_a text_b
  = Ok (similarity_score (tokens_of lower text_a) (tokens_of lower text_b)).
Proof.
  unfold LCSEngine.compute_textual_similarity.
  rewrite !standardize_text_clean. simpl.
  fold (tokens_of lower text_a). fold (tokens_of lower text_b).
  rewrite calculate_lcs_length_table. simpl.
  pose proof (base_length_pos (tokens_of lower text_a)).
  rewrite py_truediv_ok by lia. simpl.
  unfold similarity_score. rewrite py_or_1_max; [done|unfold py_len; lia].
Qed.

Lemma similarity_score_bounds (ta tb : list text) :
  (0 <= similarity_score ta tb)%Qc ∧ (similarity_score ta tb <= 1)%Qc.
Proof.
  unfold similarity_score.
  apply py_round_bounds; apply clamp_bounds.
Qed.

Lemma similarity_score_nil (ta tb : list text) :
  ta = [] ∨ tb = [] → similarity_score ta tb = 0%Qc.
Proof.
  intros H. unfold similarity_score.
  assert (lcs_table ta tb (length ta) (length tb) = 0) as ->.
  { destruct H as [-> | ->]; [done|apply lcs_table_0_r]. }
  by rewrite ratio_0, clamp_0, py_round_0.
Qed.

Lemma similarity_score_diag (ta : list text) :
  ta ≠ [] → similarity_score ta ta = 1%Qc.
Proof.
  intros H. unfold similarity_score.
  rewrite (is_lcs_length_unique ta ta _ _ (lcs_table_whole ta ta)
             (is_lcs_length_diag ta)).
  assert (1 ≤ py_len ta) by (destruct ta; [done|unfold py_len; simpl; lia]).
  rewrite Z.max_r by done.
  rewrite ratio_1 by lia. by rewrite clamp_1, py_round_1.
Qed.
End Pipeline.

(** ** Tokens of a normalised text *)

Lemma word_char_clean (c : Z) :
  word_char c = true ↔ clean_char c = true ∧ is_space c = false.
Proof.
  unfold word_char, clean_char.
  rewrite !andb_true_iff, !negb_true_iff. tauto.
Qed.

Lemma word_char_plain (c : Z) :
  word_char c = true → is_ascii c || is_cjk c = true.
Proof.
  unfold word_char, in_domain, is_ascii, is_cjk, is_digit, is_upper, is_lower.
  destruct (is_space c); [by rewrite andb_false_r|].
  rewrite orb_false_r, andb_true_r. bool_to_Z. lia.
Qed.

Lemma word_char_lower (c : Z) : word_char c = true → ascii_lower c = c.
Proof.
  unfold word_char, ascii_lower.
  destruct (is_upper c); [|done]. by rewrite andb_false_r.
Qed.

Lemma word_char_domain (c : Z) : word_char c = true → in_domain c = true.
Proof. unfold word_char. rewrite !andb_true_iff. tauto. Qed.

Lemma word_char_nonspace (c : Z) : word_char c = true → is_space c = false.
Proof. unfold word_char. rewrite !andb_true_iff, !negb_true_iff. tauto. Qed.

Lemma runs_concat (s : text) : concat (runs s) = s.
Proof.
  induction s as [|c s IH]; [done|].
  cbn [runs]. destruct (runs s) as [|[|d r] rs] eqn:Hs.
  - simpl in *. by rewrite <- IH.
  - by destruct (runs_head s _ _ Hs) as (? & ? & ? & _ & ? & _).
  - destruct (Bool.eqb _ _); simpl in *; by rewrite <- IH.
Qed.

Lemma replace_clean (s : text) :
  forallb (fun c => negb (is_upper c)) s = true →
  Forall (fun c => clean_char c = true) (replace_outside_domain s).
Proof.
  intros H. unfold replace_outside_domain.
  apply Forall_fmap, Forall_forall. intros c Hc. simpl.
  rewrite forallb_forall in H. specialize (H c Hc).
  unfold clean_char. destruct (in_domain c) eqn:Hd; [|done].
  by rewrite Hd, H.
Qed.

Lemma collapse_clean (s : text) :
  Forall (fun c => clean_char c = true) s →
  Forall (fun c => clean_char c = true) (collapse_space_runs s).
Proof.
  intros H. rewrite <- (runs_concat s) in H.
  unfold collapse_space_runs. revert H.
  induction (runs s) as [|r rs IH]; [done|].
  cbn [concat fmap list_fmap]. rewrite !Forall_app.
  intros [Hr Hrs]. split; [|by apply IH].
  unfold collapse_run. destruct (_ && _); [|done].
  by constructor.
Qed.

Lemma lstrip_Forall (P : Z → Prop) (s : text) :
  Forall P s → Forall P (lstrip s).
Proof.
  induction 1 as [|c s Hc Hs IH]; [done|].
  simpl. destruct (is_space c); [done|by constructor].
Qed.

Lemma str_strip_Forall (P : Z → Prop) (s : text) :
  Forall P s → Forall P (str_strip s).
Proof.
  intros H. unfold str_strip, rstrip.
  by apply Forall_rev, lstrip_Forall, Forall_rev, lstrip_Forall.
Qed.

Lemma split_scan_tokens (s : text) :
  ∀ cur,
    Forall (fun c => word_char c = true) cur →
    Forall (fun c => clean_char c = true) s →
    Forall token_ok (split_scan cur s).
Proof.
  assert (Hrev : ∀ cur, cur ≠ [] → Forall (fun c => word_char c = true) cur →
                        token_ok (rev cur)).
  { intros cur Hne Hcur. split; [|by apply Forall_rev].
    intros E. apply Hne. by rewrite <- (rev_involutive cur), E. }
  induction s as [|c s IH]; intros cur Hcur Hs.
  - simpl. destruct cur; [done|]. constructor; [|done]. by apply Hrev.
  - inversion Hs as [|? ? Hc Hs']; subst. simpl.
    destruct (is_space c) eqn:Hsp.
    + destruct cur as [|d cur]; [by apply IH|].
      constructor; [by apply Hrev|by apply IH].
    + apply IH; [|done]. constructor; [|done].
      by apply word_char_clean.
Qed.

(** ** What [strip] removes *)

Lemma lstrip_spec (s : text) :
  ∃ l, s = l ++ lstrip s
       ∧ Forall (fun c => is_space c = true) l
       ∧ ∀ c t, lstrip s = c :: t → is_space c = false.
Proof.
  induction s as [|c s (l & E & Hl & Hhd)].
  - exists []. by repeat split.
  - simpl. destruct (is_space c) eqn:Hc.
    + exists (c :: l). split; [by rewrite E at 1|].
      split; [by constructor|done].
    + exists []. split; [done|]. split; [done|].
      by intros ? ? [= <- <-].
Qed.

Lemma lstrip_snoc_nonspace (s : text) (c : Z) :
  is_space c = false → lstrip (s ++ [c]) = lstrip s ++ [c].
Proof.
  intros Hc. induction s as [|d s IH]; simpl; [by rewrite Hc|].
  by destruct (is_space d).
Qed.

(** [strip] removes a whitespace prefix and a whitespace suffix, and what is
    left neither starts nor ends with whitespace. *)
Lemma str_strip_spec (s : text) :
  ∃ l r, s = l ++ str_strip s ++ r
         ∧ Forall (fun c => is_space c = true) l
         ∧ Forall (fun c => is_space c = true) r
         ∧ (∀ c t, str_strip s = c :: t → is_space c = false)
         ∧ (∀ c t, str_strip s = t ++ [c] → is_space c = false).
Proof.
  destruct (lstrip_spec s) as (l & E & Hl & Hhd).
  destruct (lstrip_spec (rev (lstrip s))) as (r & Er & Hr & Hlast).
  unfold str_strip, rstrip.
  exists l, (rev r). split; [|split; [done|split; [by apply Forall_rev|split]]].
  - rewrite <- rev_app_distr, <- Er, rev_involutive. done.
  - intros c t Hc.
    destruct (lstrip s) as [|d u] eqn:Eu; [done|].
    pose proof (Hhd d u eq_refl) as Hd.
    simpl rev in Hc. rewrite (lstrip_snoc_nonspace _ _ Hd) in Hc.
    rewrite rev_app_distr in Hc. by injection Hc as <- _.
  - intros c t Hc. apply (Hlast c (rev t)).
    by rewrite <- (rev_involutive (lstrip _)), Hc, rev_app_distr.
Qed.

(** ** Joining tokens and normalising again *)

Lemma str_join_cons2 (sep t t' : text) (ts : list text) :
  str_join sep (t :: t' :: ts) = t ++ sep ++ str_join sep (t' :: ts).
Proof. done. Qed.

Lemma token_ok_head (t : text) :
  token_ok t → ∃ c t', t = c :: t' ∧ is_space c = false.
Proof.
  intros [Hne Hall]. destruct t as [|c t']; [done|].
  exists c, t'. split; [done|].
  inversion Hall; subst. by apply word_char_nonspace.
Qed.

Lemma token_ok_last (t : text) :
  token_ok t → ∃ c t', t = t' ++ [c] ∧ is_space c = false.
Proof.
  intros [Hne Hall]. destruct (exists_last Hne) as (t' & c & ->).
  exists c, t'. split; [done|].
  apply Forall_app in Hall as [_ Hc]. inversion Hc; subst.
  by apply word_char_nonspace.
Qed.

Lemma join_head (t : text) (ts : list text) :
  Forall token_ok (t :: ts) →
  ∃ c rest, str_join [SPACE] (t :: ts) = c :: rest ∧ is_space c = false.
Proof.
  intros H. inversion H as [|? ? Ht Hts]; subst.
  destruct (token_ok_head t Ht) as (c & t' & -> & Hc).
  destruct ts as [|t2 ts]; [by exists c, t'|].
  rewrite str_join_cons2. by eexists c, _.
Qed.

Lemma join_last (ts : list text) :
  ∀ t, Forall token_ok (t :: ts) →
       ∃ c init, str_join [SPACE] (t :: ts) = init ++ [c] ∧ is_space c = false.
Proof.
  induction ts as [|t2 ts IH]; intros t H; inversion H as [|? ? Ht Hts]; subst.
  - destruct (token_ok_last t Ht) as (c & t' & -> & Hc). by exists c, t'.
  - destruct (IH t2 Hts) as (c & init & E & Hc).
    rewrite str_join_cons2, E. exists c, (t ++ [SPACE] ++ init).
    split; [|done]. by rewrite <- !app_assoc.
Qed.

Lemma join_chars (ts : list text) :
  Forall token_ok ts →
  Forall (fun c => word_char c = true ∨ c = SPACE) (str_join [SPACE] ts).
Proof.
  induction ts as [|t ts IH]; intros H; [done|].
  inversion H as [|? ? [_ Ht] Hts]; subst.
  assert (Hword : Forall (fun c => word_char c = true ∨ c = SPACE) t).
  { eapply Forall_impl; [|exact Ht]. simpl. tauto. }
  destruct ts as [|t2 ts]; [done|].
  rewrite str_join_cons2, !Forall_app. split; [done|]. split; [|by apply IH].
  constructor; [by right|done].
Qed.

Lemma scan_word (t rest : text) :
  Forall (fun c => word_char c = true) t →
  scan_spaces 0%nat (t ++ rest) = t ++ scan_spaces 0%nat rest.
Proof.
  induction 1 as [|c t Hc Ht IH]; [done|].
  simpl app.
  rewrite scan_nonspace by (by apply word_char_nonspace). by rewrite IH.
Qed.

Lemma scan_join (ts : list text) :
  Forall token_ok ts →
  scan_spaces 0%nat (str_join [SPACE] ts) = str_join [SPACE] ts.
Proof.
  induction ts as [|t ts IH]; intros H; [done|].
  inversion H as [|? ? [Hne Ht] Hts]; subst.
  destruct ts as [|t2 ts].
  - simpl. rewrite <- (app_nil_r t) at 1. rewrite scan_word by done.
    by rewrite app_nil_r.
  - rewrite str_join_cons2, scan_word by done. f_equal.
    destruct (join_head t2 ts Hts) as (c & rest & E & Hc).
    cbn [app].
    rewrite scan_space_single; [by rewrite IH|done|].
    rewrite E. by apply run_length_nonspace.
Qed.

Lemma lstrip_id (c : Z) (s : text) :
  is_space c = false → lstrip (c :: s) = c :: s.
Proof. intros H. simpl. by rewrite H. Qed.

Lemma str_strip_join (ts : list text) :
  Forall token_ok ts → str_strip (str_join [SPACE] ts) = str_join [SPACE] ts.
Proof.
  intros H. destruct ts as [|t ts]; [done|].
  destruct (join_head t ts H) as (c & rest & E & Hc).
  destruct (join_last ts t H) as (c' & init & E' & Hc').
  unfold str_strip, rstrip.
  rewrite E, (lstrip_id _ _ Hc), <- E, E'.
  rewrite rev_app_distr. simpl rev at 2. simpl app.
  rewrite (lstrip_id _ _ Hc').
  change (c' :: rev init) with (rev [c'] ++ rev init).
  by rewrite <- rev_app_distr, rev_involutive.
Qed.

Lemma split_scan_word (t rest cur : text) :
  Forall (fun c => word_char c = true) t →
  split_scan cur (t ++ rest) = split_scan (rev t ++ cur) rest.
Proof.
  intros H. revert cur. induction H as [|c t Hc Ht IH]; intros cur; [done|].
  simpl. rewrite (word_char_nonspace c Hc), IH.
  by rewrite <- app_assoc.
Qed.

Lemma split_join (ts : list text) :
  Forall token_ok ts → str_split (str_join [SPACE] ts) = ts.
Proof.
  unfold str_split.
  induction ts as [|t ts IH]; intros H; [done|].
  inversion H as [|? ? [Hne Ht] Hts]; subst.
  assert (∃ d r, rev t ++ [] = d :: r) as (d & r & Hrev).
  { rewrite app_nil_r. destruct (rev t) as [|d r] eqn:E; [|by eauto].
    destruct Hne. by rewrite <- (rev_involutive t), E. }
  assert (Hback : rev (d :: r) = t).
  { by rewrite <- Hrev, app_nil_r, rev_involutive. }
  destruct ts as [|t2 ts].
  - simpl str_join. rewrite <- (app_nil_r t) at 1.
    rewrite split_scan_word, Hrev by done. simpl split_scan.
    by rewrite <- Hback.
  - rewrite str_join_cons2, split_scan_word, Hrev by done.
    cbn [app split_scan]. change (is_space SPACE) with true. cbn match.
    rewrite IH by done. by rewrite <- Hback.
Qed.

(** ** Re-tokenisation *)

Lemma ascii_lower_not_upper (c : Z) : is_upper (ascii_lower c) = false.
Proof.
  unfold ascii_lower. destruct (is_upper c) eqn:Hc; [|done].
  unfold is_upper in *. bool_to_Z. lia.
Qed.

(** Lowercasing character by character has the two properties asked of
    [str.lower]. *)
Lemma ascii_lower_facts : LowerFacts (fmap ascii_lower).
Proof.
  split; [done|].
  intros s. apply forallb_forall. intros c Hc.
  apply list_elem_of_In, list_elem_of_fmap in Hc as (c' & -> & _).
  by rewrite ascii_lower_not_upper.
Qed.

Section Retokenize.
Variable lower : text -> text.
Hypothesis lower_facts : LowerFacts lower.

Lemma tokens_of_ok (v : PyVal) : Forall token_ok (tokens_of lower v).
Proof.
  unfold tokens_of, TextProcessor.tokenize_content.
  destruct (negb _); [done|].
  apply split_scan_tokens; [done|].
  unfold clean_text. destruct v as [| | |[|c s]|]; try done.
  apply str_strip_Forall, collapse_clean, replace_clean.
  apply (lower_no_upper _ lower_facts).
Qed.

Lemma lower_join (ts : list text) :
  Forall token_ok ts → lower (str_join [SPACE] ts) = str_join [SPACE] ts.
Proof.
  intros H%join_chars.
  rewrite (lower_plain _ lower_facts).
  - rewrite <- (list_fmap_id (str_join [SPACE] ts)) at 2.
    apply Forall_fmap_ext_1. eapply Forall_impl; [|exact H].
    intros c [Hc| ->]; [by apply word_char_lower|done].
  - apply forallb_forall. intros c Hc.
    rewrite Forall_forall in H. destruct (H c Hc) as [Hw| ->]; [|done].
    by apply word_char_plain.
Qed.

Lemma replace_join (ts : list text) :
  Forall token_ok ts →
  replace_outside_domain (str_join [SPACE] ts) = str_join [SPACE] ts.
Proof.
  intros H%join_chars. unfold replace_outside_domain.
  rewrite <- (list_fmap_id (str_join [SPACE] ts)) at 2.
  apply Forall_fmap_ext_1. eapply Forall_impl; [|exact H].
  intros c [Hc| ->]; [|done]. simpl. by rewrite (word_char_domain c Hc).
Qed.

Lemma normalize_join (ts : list text) :
  Forall token_ok ts →
  normalize lower (str_join [SPACE] ts) = str_join [SPACE] ts.
Proof.
  intros H. unfold normalize.
  rewrite lower_join, replace_join by done.
  rewrite <- re_sub_space_run. unfold re_sub.
  change (re_sub_scan TextProcessor.space_run [SPACE]) with scan_spaces.
  by rewrite scan_join, str_strip_join.
Qed.

(** Joining a token sequence with single spaces and running the pipeline
    again gives the sequence back. *)
Lemma tokens_of_join (ts : list text) :
  Forall token_ok ts → tokens_of lower (PyStr (str_join [SPACE] ts)) = ts.
Proof.
  intros H. unfold tokens_of, clean_text.
  destruct (str_join [SPACE] ts) as [|c s] eqn:E.
  - destruct ts as [|t ts]; [done|].
    destruct (join_head t ts H) as (c & rest & E' & _). congruence.
  - rewrite <- E, normalize_join by done.
    unfold TextProcessor.tokenize_content. rewrite E. simpl negb. cbn match.
    rewrite <- E. by apply split_join.
Qed.

(** X18: joining the tokens of any input with single spaces and running
    normalisation and tokenisation again gives the same tokens. *)
Lemma retokenize_stable (v : PyVal) :
  token_sequence lower
    (PyStr (str_join [SPACE] (tokens_of lower v)))
  = token_sequence lower v.
Proof.
  rewrite !token_sequence_tokens. f_equal.
  apply tokens_of_join, tokens_of_ok.
Qed.

(** On an object whose two contents are set and whose token lists are
    both [None], [calculate_similarity] agrees with
    [compute_textual_similarity] on the two contents when neither is the
    empty text, and raises otherwise. *)
Lemma calculate_similarity_loaded (orig plag : text) :
  PaperCheckSystem.calculate_similarity lower (PaperCheckSystem.loaded orig plag)
  = match orig, plag with
    | _ :: _, _ :: _ =>
        LCSEngine.compute_textual_similarity lower (PyStr orig) (PyStr plag)
    | _, _ => Raise RuntimeError
    end.
Proof.
  unfold PaperCheckSystem.calculate_similarity, PaperCheckSystem.loaded,
    PaperCheckSystem.preprocess_texts.
  cbn [PaperCheckSystem.tokenized_original PaperCheckSystem.tokenized_plagiarized
       PaperCheckSystem.original_content PaperCheckSystem.plagiarized_content
       PaperCheckSystem.content_truthy PaperCheckSystem.content_value
       bool_decide decide_rel orb].
  destruct orig as [|a orig], plag as [|p plag]; try done.
  cbn [py_truthy]. rewrite bool_decide_eq_true_2 by done.
  rewrite standardize_text_clean.
  cbn [orb mbind Exc_bind PaperCheckSystem.tokenized_original
       PaperCheckSystem.tokenized_plagiarized
       PaperCheckSystem.original_content PaperCheckSystem.plagiarized_content
       PaperCheckSystem.content_truthy PaperCheckSystem.content_value
       py_truthy].
  rewrite standardize_text_clean.
  cbn [mbind Exc_bind PaperCheckSystem.tokenized_original
       PaperCheckSystem.tokenized_plagiarized PaperCheckSystem.join_tokens].
  fold (tokens_of lower (PyStr (a :: orig))).
  fold (tokens_of lower (PyStr (p :: plag))).
  rewrite !similarity_unfold, !tokens_of_join by apply tokens_of_ok.
  done.
Qed.
End Retokenize.

(** * The stated properties *)

Example lit_ascii : lit "a b" = [0x61; 0x20; 0x62].
Proof. reflexivity. Qed.

Example lit_cjk : lit "多个 空格" = [0x591A; 0x4E2A; 0x20; 0x7A7A; 0x683C].
Proof. reflexivity. Qed.

(** On texts made of ASCII characters and characters of U+4E00..U+9FFF the
    pipeline does not depend on which [lower] is used. *)
Section PlainTexts.
Variable lower : text -> text.
Hypothesis lower_facts : LowerFacts lower.

Lemma standardize_text_plain (s : text) :
  plain s = true →
  TextProcessor.standardize_text lower (PyStr s)
  = TextProcessor.standardize_text (fmap ascii_lower) (PyStr s).
Proof.
  intros H. unfold TextProcessor.standardize_text.
  destruct s as [|c s]; [done|].
  cbn [py_truthy isinstance_str negb orb TextProcessor.str_lower].
  by rewrite (lower_plain _ lower_facts _ H).
Qed.

Lemma token_sequence_plain (s : text) :
  plain s = true →
  token_sequence lower (PyStr s) = token_sequence (fmap ascii_lower) (PyStr s).
Proof. intros H. unfold token_sequence. by rewrite standardize_text_plain. Qed.

Lemma similarity_plain (s1 s2 : text) :
  plain s1 = true → plain s2 = true →
  LCSEngine.compute_textual_similarity lower (PyStr s1) (PyStr s2)
  = LCSEngine.compute_textual_similarity (fmap ascii_lower) (PyStr s1) (PyStr s2).
Proof.
  intros H1 H2. unfold LCSEngine.compute_textual_similarity.
  by rewrite !standardize_text_plain.
Qed.
End PlainTexts.

(** C1: for all token sequences [a] and [b], [calculate_lcs_length a b]
    returns the length of a longest common subsequence of [a] and [b]: some
    sequence occurring in order in both has that length, and none is longer.
    In particular the result on [a b c d] and [a c e d] is 3. *)
Theorem calculate_lcs_length_is_lcs :
  (∀ a b : list text,
     ∃ k, LCSEngine.calculate_lcs_length a b = Ok k ∧ is_lcs_length a b k)
  ∧ LCSEngine.calculate_lcs_length
      [lit "a"; lit "b"; lit "c"; lit "d"] [lit "a"; lit "c"; lit "e"; lit "d"]
    = Ok 3.
Proof.
  split; [|reflexivity].
  intros a b. exists (lcs_table a b (length a) (length b)).
  split; [apply calculate_lcs_length_table|apply lcs_table_whole].
Qed.

(** C2: for all token sequences, the rolling two-row implementation returns
    the value found at [dp[n][m]] by the full-table reference, whose base row
    is all zeros and whose other rows follow the standard recurrence. *)
Theorem rolling_equals_full_table (a b : list text) :
  LCSEngine.calculate_lcs_length a b = Ok (lcs_full_table a b).
Proof.
  by rewrite calculate_lcs_length_table, lcs_full_table_table.
Qed.

(** C8: the LCS length never exceeds the length of either sequence. *)
Theorem calculate_lcs_length_le_min (a b : list text) :
  ∃ k, LCSEngine.calculate_lcs_length a b = Ok k
       ∧ k ≤ Z.min (py_len a) (py_len b).
Proof.
  exists (lcs_table a b (length a) (length b)).
  split; [apply calculate_lcs_length_table|].
  apply (is_lcs_length_bounds a b), lcs_table_whole.
Qed.

(** C3: when the token sequence of either text is empty, the score is exactly
    0: the LCS step returns 0 through its guard and the denominator of the
    division is not zero. *)
Theorem similarity_empty_is_zero (lower : text → text) (text_a text_b : PyVal)
    (ta tb : list text) :
  token_sequence lower text_a = Ok ta →
  token_sequence lower text_b = Ok tb →
  ta = [] ∨ tb = [] →
  LCSEngine.compute_textual_similarity lower text_a text_b = Ok 0%Qc
  ∧ LCSEngine.calculate_lcs_length ta tb = Ok 0
  ∧ py_or (py_len ta) 1 ≠ 0.
Proof.
  rewrite !token_sequence_tokens. intros [= <-] [= <-] H.
  split; [|split].
  - by rewrite similarity_unfold, similarity_score_nil.
  - rewrite calculate_lcs_length_table. f_equal.
    destruct H as [-> | ->]; [done|apply lcs_table_0_r].
  - pose proof (base_length_pos (tokens_of lower text_a)). lia.
Qed.

Lemma similarity_empty_is_zero_witness :
  LCSEngine.compute_textual_similarity (fmap ascii_lower)
    (PyStr (lit "")) (PyStr (lit "hello world")) = Ok 0%Qc
  ∧ LCSEngine.calculate_lcs_length [] [lit "hello"; lit "world"] = Ok 0
  ∧ py_or (py_len (@nil text)) 1 ≠ 0.
Proof.
  apply (similarity_empty_is_zero (fmap ascii_lower)
           (PyStr (lit "")) (PyStr (lit "hello world"))
           [] [lit "hello"; lit "world"]);
    [reflexivity | reflexivity | left; reflexivity].
Defined.

(** C4: a text whose token sequence is not empty has similarity 1 with
    itself. *)
Theorem similarity_identity (lower : text → text) (t : PyVal) (ta : list text) :
  token_sequence lower t = Ok ta →
  ta ≠ [] →
  LCSEngine.compute_textual_similarity lower t t = Ok 1%Qc.
Proof.
  rewrite token_sequence_tokens. intros [= <-] H.
  by rewrite similarity_unfold, similarity_score_diag.
Qed.

Lemma similarity_identity_witness :
  LCSEngine.compute_textual_similarity (fmap ascii_lower)
    (PyStr (lit "hello world")) (PyStr (lit "hello world")) = Ok 1%Qc.
Proof.
  apply (similarity_identity (fmap ascii_lower) (PyStr (lit "hello world"))
           [lit "hello"; lit "world"]);
    [reflexivity | discriminate].
Defined.

(** C6: the score of any two inputs lies in the closed interval [0, 1]. *)
Theorem similarity_in_unit_interval (lower : text → text) (text_a text_b : PyVal) :
  ∃ q, LCSEngine.compute_textual_similarity lower text_a text_b = Ok q
       ∧ (0 <= q)%Qc ∧ (q <= 1)%Qc.
Proof.
  eexists. split; [apply similarity_unfold|].
  apply similarity_score_bounds.
Qed.

(** C5: on every raw text, [standardize_text] lowercases, then replaces each
    character outside the allowed domain by one space, then turns each run of
    two or more whitespace characters into one space, then trims whitespace
    at both ends; "Hello, World!" becomes "hello world" and
    "  多个  空格  " becomes "多个 空格". *)
Theorem standardize_text_steps (lower : text → text) :
  LowerFacts lower →
  (∀ s : text,
     TextProcessor.standardize_text lower (PyStr s)
     = Ok (str_strip
             (collapse_space_runs (replace_outside_domain (lower s)))))
  ∧ TextProcessor.standardize_text lower (PyStr (lit "Hello, World!"))
    = Ok (lit "hello world")
  ∧ TextProcessor.standardize_text lower (PyStr (lit "  多个  空格  "))
    = Ok (lit "多个 空格").
Proof.
  intros Hl. split; [|split].
  - intros s. rewrite standardize_text_clean.
    destruct s as [|c s]; [|done].
    by rewrite (lower_plain _ Hl []).
  - by rewrite standardize_text_plain.
  - by rewrite standardize_text_plain.
Qed.

Lemma standardize_text_steps_witness :
  (∀ s : text,
     TextProcessor.standardize_text (fmap ascii_lower) (PyStr s)
     = Ok (str_strip
             (collapse_space_runs
                (replace_outside_domain (ascii_lower <$> s)))))
  ∧ TextProcessor.standardize_text (fmap ascii_lower)
      (PyStr (lit "Hello, World!"))
    = Ok (lit "hello world")
  ∧ TextProcessor.standardize_text (fmap ascii_lower)
      (PyStr (lit "  多个  空格  "))
    = Ok (lit "多个 空格").
Proof.
  apply (standardize_text_steps (fmap ascii_lower)), ascii_lower_facts.
Defined.

(** C7: the score divides by [max(1, number of tokens of the first
    argument)] whatever the second argument is, and it is not symmetric:
    there are texts A and B, A with fewer tokens than B and the tokens of A a
    subsequence of those of B, with score 1 for (A, B) and a score below 1
    for (B, A). *)
Theorem similarity_asymmetric (lower : text → text) :
  LowerFacts lower →
  (∀ text_a text_b : PyVal,
     ∃ ta tb l,
       token_sequence lower text_a = Ok ta
       ∧ token_sequence lower text_b = Ok tb
       ∧ LCSEngine.calculate_lcs_length ta tb = Ok l
       ∧ LCSEngine.compute_textual_similarity lower text_a text_b
         = Ok (py_round
                 (py_max 0
                    (py_min 1
                       (Q2Qc (inject_Z l / inject_Z (Z.max 1 (py_len ta))))))
                 4))
  ∧ ∃ (A B : text) (ta tb : list text),
      token_sequence lower (PyStr A) = Ok ta
      ∧ token_sequence lower (PyStr B) = Ok tb
      ∧ (length ta < length tb)%nat
      ∧ ta `sublist_of` tb
      ∧ LCSEngine.compute_textual_similarity lower (PyStr A) (PyStr B) = Ok 1%Qc
      ∧ ∃ q, LCSEngine.compute_textual_similarity lower (PyStr B) (PyStr A) = Ok q
             ∧ (q < 1)%Qc.
Proof.
  intros Hl. split.
  - intros text_a text_b.
    exists (tokens_of lower text_a), (tokens_of lower text_b).
    eexists. rewrite !token_sequence_tokens.
    split; [done|]. split; [done|].
    split; [apply calculate_lcs_length_table|].
    apply similarity_unfold.
  - exists (lit "a"), (lit "a b"), [lit "a"], [lit "a"; lit "b"].
    rewrite !(token_sequence_plain lower Hl), !(similarity_plain lower Hl) by done.
    split; [done|]. split; [done|]. split; [simpl; lia|].
    split; [by apply sublist_skip, sublist_nil_l|].
    rewrite !similarity_unfold.
    split; [f_equal; by apply Qc_is_canon|].
    eexists. split; [reflexivity|]. done.
Qed.

Lemma similarity_asymmetric_witness :
  ∃ (A B : text) (ta tb : list text),
    token_sequence (fmap ascii_lower) (PyStr A) = Ok ta
    ∧ token_sequence (fmap ascii_lower) (PyStr B) = Ok tb
    ∧ (length ta < length tb)%nat
    ∧ ta `sublist_of` tb
    ∧ LCSEngine.compute_textual_similarity (fmap ascii_lower) (PyStr A) (PyStr B)
      = Ok 1%Qc
    ∧ ∃ q, LCSEngine.compute_textual_similarity (fmap ascii_lower)
             (PyStr B) (PyStr A) = Ok q
           ∧ (q < 1)%Qc.
Proof.
  apply (similarity_asymmetric (fmap ascii_lower)), ascii_lower_facts.
Defined.





(** C10: on two empty files [calculate_similarity] raises [RuntimeError],
    while the direct computation on the same two contents returns 0. *)
Theorem calculate_similarity_empty_files (lower : text → text) :
  PaperCheckSystem.calculate_similarity lower (PaperCheckSystem.loaded [] [])
  = Raise RuntimeError
  ∧ LCSEngine.compute_textual_similarity lower (PyStr []) (PyStr []) = Ok 0%Qc.
Proof.
  split; [reflexivity|].
  rewrite similarity_unfold. by rewrite similarity_score_nil by (by left).
Qed.

(** * Further properties of the code *)

(** ** More on the LCS length *)

Lemma is_lcs_length_sym (a b : list text) (k : Z) :
  is_lcs_length a b k → is_lcs_length b a k.
Proof.
  intros [(s & [Ha Hb] & Hlen) Hmax]. split.
  - by exists s.
  - intros t [Hb' Ha']. by apply Hmax.
Qed.

Lemma is_lcs_length_mono (a a' b b' : list text) (k k' : Z) :
  a `sublist_of` a' → b `sublist_of` b' →
  is_lcs_length a b k → is_lcs_length a' b' k' → k ≤ k'.
Proof.
  intros Ha Hb [(s & [Hsa Hsb] & <-) _] [_ Hmax].
  apply Hmax. split; [by trans a|by trans b].
Qed.

Lemma is_lcs_length_sublist (a b : list text) :
  a `sublist_of` b → is_lcs_length a b (py_len a).
Proof.
  intros H. split.
  - exists a. by repeat split.
  - intros s [Hs _]. apply sublist_length in Hs. unfold py_len. lia.
Qed.

Lemma is_lcs_length_disjoint (a b : list text) :
  (∀ t, t ∈ a → t ∉ b) → is_lcs_length a b 0.
Proof.
  intros Hdis. split.
  - exists []. repeat split; apply sublist_nil_l.
  - intros [|t s] [Ha Hb]; [done|].
    destruct (Hdis t).
    + apply (sublist_subseteq _ _ Ha). by left.
    + apply (sublist_subseteq _ _ Hb). by left.
Qed.

Lemma lcs_table_is (a b : list text) (k : Z) :
  is_lcs_length a b k → lcs_table a b (length a) (length b) = k.
Proof.
  intros H. apply (is_lcs_length_unique a b); [apply lcs_table_whole|exact H].
Qed.

(** X1: the LCS length does not depend on the order of the two
    arguments. *)
Theorem calculate_lcs_length_sym (a b : list text) :
  LCSEngine.calculate_lcs_length a b = LCSEngine.calculate_lcs_length b a.
Proof.
  rewrite !calculate_lcs_length_table. f_equal.
  apply lcs_table_is, is_lcs_length_sym, lcs_table_whole.
Qed.

(** X2: extending either sequence, at any positions, never lowers the LCS
    length. *)
Theorem calculate_lcs_length_mono (a a' b b' : list text) :
  a `sublist_of` a' → b `sublist_of` b' →
  ∃ k k', LCSEngine.calculate_lcs_length a b = Ok k
          ∧ LCSEngine.calculate_lcs_length a' b' = Ok k'
          ∧ k ≤ k'.
Proof.
  intros Ha Hb. do 2 eexists. rewrite !calculate_lcs_length_table.
  split; [done|]. split; [done|].
  eapply (is_lcs_length_mono a a' b b'); [done|done| |]; apply lcs_table_whole.
Qed.

Lemma calculate_lcs_length_mono_witness :
  ∃ k k', LCSEngine.calculate_lcs_length [lit "a"; lit "c"] [lit "c"] = Ok k
          ∧ LCSEngine.calculate_lcs_length
              [lit "a"; lit "b"; lit "c"] [lit "b"; lit "c"] = Ok k'
          ∧ k ≤ k'.
Proof.
  apply (calculate_lcs_length_mono
           [lit "a"; lit "c"] [lit "a"; lit "b"; lit "c"]
           [lit "c"] [lit "b"; lit "c"]).
  - apply sublist_skip, sublist_cons, sublist_skip, sublist_nil_l.
  - apply sublist_cons, sublist_skip, sublist_nil_l.
Defined.

Lemma sublist_same_length (s a : list text) :
  s `sublist_of` a → length s = length a → s = a.
Proof.
  induction 1 as [|x s a Hs IH|x s a Hs IH]; intros Hlen; [done| |].
  - f_equal. apply IH. simpl in Hlen. lia.
  - apply sublist_length in Hs. simpl in Hlen. lia.
Qed.

Lemma singleton_sublist (t : text) (a : list text) :
  t ∈ a → [t] `sublist_of` a.
Proof.
  intros (l & r & ->)%list_elem_of_split.
  apply sublist_inserts_l, sublist_skip, sublist_nil_l.
Qed.

(** X3: the LCS length equals the length of the first sequence exactly
    when the first sequence occurs, in order, inside the second. *)
Theorem calculate_lcs_length_sublist (a b : list text) :
  LCSEngine.calculate_lcs_length a b = Ok (py_len a) ↔ a `sublist_of` b.
Proof.
  rewrite calculate_lcs_length_table. split.
  - intros [= E].
    destruct (lcs_table_whole a b) as [(s & [Ha Hb] & Hlen) _].
    rewrite E in Hlen.
    rewrite <- (sublist_same_length s a Ha); [done|].
    unfold py_len in Hlen. lia.
  - intros H. f_equal. by apply lcs_table_is, is_lcs_length_sublist.
Qed.

(** X15: the LCS length is 0 exactly when the two sequences have no token
    in common. *)
Theorem calculate_lcs_length_zero (a b : list text) :
  LCSEngine.calculate_lcs_length a b = Ok 0 ↔ ∀ t, t ∈ a → t ∉ b.
Proof.
  rewrite calculate_lcs_length_table. split.
  - intros [= E] t Ha Hb.
    destruct (lcs_table_whole a b) as [_ Hmax].
    specialize (Hmax [t] (conj (singleton_sublist t a Ha)
                               (singleton_sublist t b Hb))).
    rewrite E in Hmax. done.
  - intros H. f_equal. by apply lcs_table_is, is_lcs_length_disjoint.
Qed.

(** X16: cutting both sequences in two, the LCS lengths of the two pairs
    of pieces add up to at most the LCS length of the whole. *)
Theorem calculate_lcs_length_app (a a' b b' : list text) :
  ∃ k1 k2 k,
    LCSEngine.calculate_lcs_length a b = Ok k1
    ∧ LCSEngine.calculate_lcs_length a' b' = Ok k2
    ∧ LCSEngine.calculate_lcs_length (a ++ a') (b ++ b') = Ok k
    ∧ k1 + k2 ≤ k.
Proof.
  do 3 eexists. rewrite !calculate_lcs_length_table.
  split; [done|]. split; [done|]. split; [done|].
  destruct (lcs_table_whole a b) as [(s & [Ha Hb] & <-) _].
  destruct (lcs_table_whole a' b') as [(s' & [Ha' Hb'] & <-) _].
  destruct (lcs_table_whole (a ++ a') (b ++ b')) as [_ Hmax].
  specialize (Hmax (s ++ s')).
  unfold py_len in *. rewrite length_app in Hmax.
  rewrite Nat2Z.inj_add in Hmax. apply Hmax.
  split; by apply sublist_app.
Qed.

(** ** More on the score *)

Lemma Qfloor_le_round (x : Q) :
  Qfloor x ≤ round_half_even x ≤ Qfloor x + 1.
Proof. destruct (round_half_even_cases x) as [->|[-> _]]; lia. Qed.

Lemma round_half_even_mono (x y : Q) :
  (x <= y)%Q → round_half_even x ≤ round_half_even y.
Proof.
  intros Hxy. pose proof (Qfloor_resp_le x y Hxy) as Hf.
  pose proof (Qfloor_le_round x). pose proof (Qfloor_le_round y).
  destruct (decide (Qfloor x = Qfloor y)) as [E|]; [|lia].
  assert (Hfrac : (x - inject_Z (Qfloor x) <= y - inject_Z (Qfloor x))%Q).
  { unfold Qminus. by apply Qplus_le_l. }
  unfold round_half_even in *. rewrite <- E in *.
  destruct (Z.even (Qfloor x));
    destruct (x - inject_Z (Qfloor x) ?= 1 # 2)%Q eqn:Hx;
    destruct (y - inject_Z (Qfloor x) ?= 1 # 2)%Q eqn:Hy;
    try lia; exfalso;
    repeat match goal with
           | H : (_ ?= _)%Q = Eq |- _ => apply Qeq_alt in H
           | H : (_ ?= _)%Q = Lt |- _ => apply Qlt_alt in H
           | H : (_ ?= _)%Q = Gt |- _ => apply Qgt_alt in H
           end;
    lra.
Qed.

Lemma py_round_mono (p q : Qc) : (p <= q)%Qc → (py_round p 4 <= py_round q 4)%Qc.
Proof.
  intros H. unfold py_round. apply Q2Qc_le.
  apply Qmult_le_compat_r; [|done].
  rewrite <- Zle_Qle. apply round_half_even_mono.
  by apply Qmult_le_compat_r.
Qed.

Lemma clamp_mono (p q : Qc) :
  (p <= q)%Qc → (py_max 0 (py_min 1 p) <= py_max 0 (py_min 1 q))%Qc.
Proof.
  intros H. unfold py_max, py_min.
  destruct (Qclt_le_dec p 1), (Qclt_le_dec q 1);
    repeat match goal with
           | |- context [Qclt_le_dec ?a ?b] => destruct (Qclt_le_dec a b)
           end;
    unfold Qclt, Qcle in *; simpl in *;
    change (Qred 1) with 1%Q in *; change (Qred 0) with 0%Q in *; lra.
Qed.

Lemma similarity_score_mono (ta tb tb' : list text) :
  tb `sublist_of` tb' →
  (similarity_score ta tb <= similarity_score ta tb')%Qc.
Proof.
  intros H. unfold similarity_score.
  apply py_round_mono, clamp_mono, Q2Qc_le.
  apply Qmult_le_compat_r.
  - rewrite <- Zle_Qle.
    eapply (is_lcs_length_mono ta ta tb tb'); [done|done| |];
      apply lcs_table_whole.
  - apply Qinv_le_0_compat. change 0%Q with (inject_Z 0).
    rewrite <- Zle_Qle. lia.
Qed.

(** X4: when the tokens of the first text are not empty and occur, in
    order, among the tokens of the second, the score is 1. *)
Theorem similarity_subsequence_is_one (lower : text → text)
    (text_a text_b : PyVal) (ta tb : list text) :
  token_sequence lower text_a = Ok ta →
  token_sequence lower text_b = Ok tb →
  ta ≠ [] →
  ta `sublist_of` tb →
  LCSEngine.compute_textual_similarity lower text_a text_b = Ok 1%Qc.
Proof.
  rewrite !token_sequence_tokens. intros [= <-] [= <-] Hne Hsub.
  rewrite similarity_unfold. f_equal. unfold similarity_score.
  rewrite (lcs_table_is _ _ _ (is_lcs_length_sublist _ _ Hsub)).
  assert (1 ≤ py_len (tokens_of lower text_a)).
  { destruct (tokens_of lower text_a); [done|unfold py_len; simpl; lia]. }
  rewrite Z.max_r by done.
  rewrite ratio_1 by lia. by rewrite clamp_1, py_round_1.
Qed.

Lemma similarity_subsequence_is_one_witness :
  LCSEngine.compute_textual_similarity (fmap ascii_lower)
    (PyStr (lit "b, d")) (PyStr (lit "a B c D")) = Ok 1%Qc.
Proof.
  apply (similarity_subsequence_is_one (fmap ascii_lower)
           (PyStr (lit "b, d")) (PyStr (lit "a B c D"))
           [lit "b"; lit "d"] [lit "a"; lit "b"; lit "c"; lit "d"]);
    [reflexivity | reflexivity | discriminate |].
  apply sublist_cons, sublist_skip, sublist_cons, sublist_skip, sublist_nil_l.
Defined.

(** X5: when no token of the first text occurs among the tokens of the
    second, the score is 0. *)
Theorem similarity_disjoint_is_zero (lower : text → text)
    (text_a text_b : PyVal) (ta tb : list text) :
  token_sequence lower text_a = Ok ta →
  token_sequence lower text_b = Ok tb →
  (∀ t, t ∈ ta → t ∉ tb) →
  LCSEngine.compute_textual_similarity lower text_a text_b = Ok 0%Qc.
Proof.
  rewrite !token_sequence_tokens. intros [= <-] [= <-] Hdis.
  rewrite similarity_unfold. f_equal. unfold similarity_score.
  rewrite (lcs_table_is _ _ _ (is_lcs_length_disjoint _ _ Hdis)).
  by rewrite ratio_0, clamp_0, py_round_0.
Qed.

Lemma similarity_disjoint_is_zero_witness :
  LCSEngine.compute_textual_similarity (fmap ascii_lower)
    (PyStr (lit "ab cd")) (PyStr (lit "a b c d")) = Ok 0%Qc.
Proof.
  apply (similarity_disjoint_is_zero (fmap ascii_lower)
           (PyStr (lit "ab cd")) (PyStr (lit "a b c d"))
           [lit "ab"; lit "cd"] [lit "a"; lit "b"; lit "c"; lit "d"]);
    [reflexivity | reflexivity |].
  intros t Ht Hb.
  rewrite !elem_of_cons, elem_of_nil in Ht.
  rewrite !elem_of_cons, elem_of_nil in Hb.
  destruct Ht as [->|[->|[]]]; destruct Hb as [?|[?|[?|[?|[]]]]];
    discriminate.
Defined.

(** X7: with the first text fixed, a second text whose tokens contain, in
    order, those of another second text scores at least as much. *)
Theorem similarity_mono_second (lower : text → text)
    (text_a text_b text_b' : PyVal) (tb tb' : list text) :
  token_sequence lower text_b = Ok tb →
  token_sequence lower text_b' = Ok tb' →
  tb `sublist_of` tb' →
  ∃ q q',
    LCSEngine.compute_textual_similarity lower text_a text_b = Ok q
    ∧ LCSEngine.compute_textual_similarity lower text_a text_b' = Ok q'
    ∧ (q <= q')%Qc.
Proof.
  rewrite !token_sequence_tokens. intros [= <-] [= <-] Hsub.
  do 2 eexists. rewrite !similarity_unfold.
  split; [done|]. split; [done|]. by apply similarity_score_mono.
Qed.

Lemma similarity_mono_second_witness :
  ∃ q q',
    LCSEngine.compute_textual_similarity (fmap ascii_lower)
      (PyStr (lit "a b c")) (PyStr (lit "a c")) = Ok q
    ∧ LCSEngine.compute_textual_similarity (fmap ascii_lower)
        (PyStr (lit "a b c")) (PyStr (lit "a x b c")) = Ok q'
    ∧ (q <= q')%Qc.
Proof.
  apply (similarity_mono_second (fmap ascii_lower)
           (PyStr (lit "a b c")) (PyStr (lit "a c")) (PyStr (lit "a x b c"))
           [lit "a"; lit "c"] [lit "a"; lit "x"; lit "b"; lit "c"]);
    [reflexivity | reflexivity |].
  apply sublist_skip, sublist_cons, sublist_cons, sublist_skip, sublist_nil_l.
Defined.

(** ** What tokenisation keeps *)

Lemma split_scan_concat (s : text) :
  ∀ cur, concat (split_scan cur s)
         = rev cur ++ List.filter (fun c => negb (is_space c)) s.
Proof.
  induction s as [|c s IH]; intros cur.
  - simpl. destruct cur; [done|]. simpl. by rewrite !app_nil_r.
  - simpl. destruct (is_space c); simpl.
    + destruct cur as [|d cur]; [apply IH|].
      cbn [concat]. by rewrite IH.
    + rewrite IH. simpl. by rewrite <- app_assoc.
Qed.

Lemma split_scan_nonempty (s : text) :
  ∀ cur, Forall (fun t => t ≠ []) (split_scan cur s).
Proof.
  assert (Hrev : ∀ (d : Z) cur, rev (d :: cur) ≠ []).
  { intros d cur E. apply (f_equal length) in E.
    rewrite length_rev in E. done. }
  induction s as [|c s IH]; intros cur; simpl.
  - destruct cur; [done|]. constructor; [apply Hrev|done].
  - destruct (is_space c); [|apply IH].
    destruct cur; [apply IH|]. constructor; [apply Hrev|apply IH].
Qed.

Lemma filter_spaces_nil (s : text) :
  Forall (fun c => is_space c = true) s →
  List.filter (fun c => negb (is_space c)) s = [].
Proof. induction 1 as [|c s Hc _ IH]; [done|]. simpl. by rewrite Hc. Qed.

Lemma filter_concat (f : Z → bool) (ls : list text) :
  List.filter f (concat ls) = concat (List.filter f <$> ls).
Proof.
  induction ls as [|l ls IH]; [done|].
  simpl. by rewrite List.filter_app, IH.
Qed.

Lemma str_strip_filter (s : text) :
  List.filter (fun c => negb (is_space c)) (str_strip s)
  = List.filter (fun c => negb (is_space c)) s.
Proof.
  destruct (str_strip_spec s) as (l & r & E & Hl & Hr & _).
  rewrite E at 2. rewrite !List.filter_app.
  by rewrite (filter_spaces_nil l), (filter_spaces_nil r), app_nil_r.
Qed.

Lemma collapse_run_filter (r : text) :
  List.filter (fun c => negb (is_space c)) (collapse_run r)
  = List.filter (fun c => negb (is_space c)) r.
Proof.
  unfold collapse_run.
  destruct (forallb is_space r) eqn:Hall; [|done].
  destruct (2 <=? length r)%nat; [|done]. simpl.
  symmetry. apply filter_spaces_nil, Forall_forall.
  by apply forallb_forall.
Qed.

Lemma collapse_filter (s : text) :
  List.filter (fun c => negb (is_space c)) (collapse_space_runs s)
  = List.filter (fun c => negb (is_space c)) s.
Proof.
  rewrite <- (runs_concat s) at 2. unfold collapse_space_runs.
  rewrite !filter_concat. f_equal.
  induction (runs s) as [|r rs IH]; [done|].
  cbn [fmap list_fmap]. rewrite collapse_run_filter. f_equal. exact IH.
Qed.

Lemma replace_filter (s : text) :
  List.filter (fun c => negb (is_space c)) (replace_outside_domain s)
  = List.filter kept_char s.
Proof.
  unfold replace_outside_domain, kept_char.
  induction s as [|c s IH]; [done|].
  cbn [fmap list_fmap List.filter] in *. rewrite IH.
  by destruct (in_domain c), (is_space c) eqn:Hc; simpl; rewrite ?Hc.
Qed.

Lemma normalize_filter (lower : text → text) (s : text) :
  List.filter (fun c => negb (is_space c)) (normalize lower s)
  = List.filter kept_char (lower s).
Proof.
  unfold normalize. by rewrite str_strip_filter, collapse_filter, replace_filter.
Qed.

Lemma tokenize_content_concat (s : text) :
  concat (TextProcessor.tokenize_content s)
  = List.filter (fun c => negb (is_space c)) s.
Proof.
  unfold TextProcessor.tokenize_content. destruct s as [|c s]; [done|].
  cbn [py_truthy negb]. unfold str_split. by rewrite split_scan_concat.
Qed.

Lemma tokenize_content_nonempty (s : text) :
  Forall (fun t => t ≠ []) (TextProcessor.tokenize_content s).
Proof.
  unfold TextProcessor.tokenize_content. destruct (negb _); [done|].
  apply split_scan_nonempty.
Qed.

Lemma tokens_of_concat (lower : text → text) (v : PyVal) :
  concat (tokens_of lower v)
  = match v with
    | PyStr (c :: s) => List.filter kept_char (lower (c :: s))
    | _ => []
    end.
Proof.
  unfold tokens_of. rewrite tokenize_content_concat.
  unfold clean_text. destruct v as [| | |[|c s]|]; try done.
  apply normalize_filter.
Qed.

(** X8: put end to end, the tokens of a text are exactly its lowercased
    characters with whitespace and disallowed characters taken out:
    nothing else is lost, added or reordered. *)
Theorem tokens_concat (lower : text → text) (v : PyVal) :
  ∃ ts, token_sequence lower v = Ok ts
        ∧ concat ts
          = match v with
            | PyStr (c :: s) => List.filter kept_char (lower (c :: s))
            | _ => []
            end.
Proof.
  exists (tokens_of lower v). split; [apply token_sequence_tokens|].
  apply tokens_of_concat.
Qed.

Lemma word_char_ranges (c : Z) :
  word_char c = is_cjk c || is_digit c || is_lower c.
Proof.
  unfold word_char, in_domain.
  destruct (is_cjk c) eqn:Hcjk, (is_digit c) eqn:Hd, (is_upper c) eqn:Hu,
    (is_lower c) eqn:Hl, (is_space c) eqn:Hs; try reflexivity; exfalso;
    unfold is_cjk, is_digit, is_upper, is_lower, is_space in *;
    bool_to_Z; lia.
Qed.

(** X9: every token is non-empty and made only of characters of
    U+4E00..U+9FFF, ASCII digits and ASCII lowercase letters. *)
Theorem tokens_well_formed (lower : text → text) (v : PyVal) :
  LowerFacts lower →
  ∃ ts, token_sequence lower v = Ok ts
        ∧ Forall (fun t =>
                    t ≠ []
                    ∧ forallb (fun c => is_cjk c || is_digit c || is_lower c) t
                      = true) ts.
Proof.
  intros Hl. exists (tokens_of lower v).
  split; [apply token_sequence_tokens|].
  eapply Forall_impl; [|apply (tokens_of_ok lower Hl)].
  intros t [Hne Ht]. split; [done|].
  apply forallb_forall. intros c Hc. rewrite <- word_char_ranges.
  rewrite Forall_forall in Ht. by apply Ht.
Qed.

Lemma tokens_well_formed_witness :
  ∃ ts, token_sequence (fmap ascii_lower) (PyStr (lit "Hello, World!")) = Ok ts
        ∧ Forall (fun t =>
                    t ≠ []
                    ∧ forallb (fun c => is_cjk c || is_digit c || is_lower c) t
                      = true) ts.
Proof.
  apply (tokens_well_formed (fmap ascii_lower) (PyStr (lit "Hello, World!"))),
    ascii_lower_facts.
Defined.

(** X10: the count [compute_word_count] returns is not negative, and it is
    0 exactly when the input is not a non-empty [str] or none of its
    lowercased characters is an allowed non-whitespace character. *)
Theorem compute_word_count_zero (lower : text → text) (v : PyVal) (n : Z) :
  TextProcessor.compute_word_count lower v = Ok n →
  0 ≤ n
  ∧ (n = 0 ↔ match v with
             | PyStr (c :: s) =>
                 forallb (fun d => negb (kept_char d)) (lower (c :: s))
                 = true
             | _ => True
             end).
Proof.
  unfold TextProcessor.compute_word_count.
  rewrite standardize_text_clean. intros [= <-].
  fold (tokens_of lower v). split; [unfold py_len; lia|].
  pose proof (tokens_of_concat lower v) as Hcat.
  pose proof (tokenize_content_nonempty (clean_text lower v)) as Hne.
  fold (tokens_of lower v) in Hne.
  assert (Hnil : py_len (tokens_of lower v) = 0 ↔ concat (tokens_of lower v) = []).
  { destruct (tokens_of lower v) as [|t ts]; [done|].
    inversion Hne; subst. split; [done|].
    destruct t; [done|discriminate]. }
  rewrite Hnil, Hcat.
  destruct v as [| | |[|c s]|]; try done.
  generalize (lower (c :: s)). intros l. split.
  - intros H. apply forallb_forall. intros d Hd.
    destruct (kept_char d) eqn:Hk; [|done].
    assert (In d (List.filter kept_char l)) by (by apply filter_In).
    rewrite H in *. done.
  - intros H. induction l as [|d l IH]; [done|].
    simpl in *. apply andb_true_iff in H as [Hd Hl].
    apply negb_true_iff in Hd. rewrite Hd. by apply IH.
Qed.

Lemma compute_word_count_zero_witness :
  0 ≤ 0
  ∧ (0 = 0 ↔ forallb (fun d => negb (kept_char d))
               (ascii_lower <$> lit "?! ,") = true).
Proof.
  apply (compute_word_count_zero (fmap ascii_lower) (PyStr (lit "?! ,")) 0).
  reflexivity.
Defined.

(** ** Shape of what [standardize_text] returns *)

Lemma collapse_Forall (P : Z → Prop) (s : text) :
  P SPACE → Forall P s → Forall P (collapse_space_runs s).
Proof.
  intros Hsp H. rewrite <- (runs_concat s) in H.
  unfold collapse_space_runs. revert H.
  induction (runs s) as [|r rs IH]; [done|].
  cbn [concat fmap list_fmap]. rewrite !Forall_app.
  intros [Hr Hrs]. split; [|by apply IH].
  unfold collapse_run. destruct (_ && _); [|done].
  by constructor.
Qed.

Lemma replace_in_domain (s : text) :
  Forall (fun c => in_domain c = true) (replace_outside_domain s).
Proof.
  unfold replace_outside_domain. apply Forall_fmap, Forall_forall.
  intros c _. simpl. by destruct (in_domain c) eqn:Hc.
Qed.

Lemma no_space_pair_cons2 (c d : Z) (t : text) :
  no_space_pair (c :: d :: t)
  = negb (is_space c && is_space d) && no_space_pair (d :: t).
Proof. done. Qed.

Lemma no_space_pair_cons (c : Z) (t : text) :
  (is_space c = true → ∀ d t', t = d :: t' → is_space d = false) →
  no_space_pair t = true → no_space_pair (c :: t) = true.
Proof.
  intros Hhd Ht. destruct t as [|d t']; [done|].
  rewrite no_space_pair_cons2, Ht, andb_true_r.
  destruct (is_space c); [|done]. by rewrite (Hhd eq_refl d t').
Qed.

Lemma no_space_pair_tail (c : Z) (t : text) :
  no_space_pair (c :: t) = true → no_space_pair t = true.
Proof.
  destruct t as [|d t']; [done|]. rewrite no_space_pair_cons2.
  by intros [_ H]%andb_true_iff.
Qed.

Lemma no_space_pair_suffix (l m : text) :
  no_space_pair (l ++ m) = true → no_space_pair m = true.
Proof.
  induction l as [|c l IH]; [done|].
  intros H. by apply IH, (no_space_pair_tail c).
Qed.

Lemma no_space_pair_prefix (m r : text) :
  no_space_pair (m ++ r) = true → no_space_pair m = true.
Proof.
  induction m as [|c m IH]; [done|].
  intros H. pose proof (no_space_pair_tail _ _ H) as Ht.
  destruct m as [|d m]; [done|].
  change ((c :: d :: m) ++ r) with (c :: d :: (m ++ r)) in H.
  rewrite no_space_pair_cons2 in H |- *.
  apply andb_true_iff in H as [-> _]. by apply IH.
Qed.

Lemma scan_head_nonspace (s : text) :
  (∀ c s', s = c :: s' → is_space c = false) →
  ∀ d t, scan_spaces 0%nat s = d :: t → is_space d = false.
Proof.
  intros Hs d t. destruct s as [|c s]; [done|].
  rewrite scan_nonspace by (by eapply Hs).
  intros [= <- _]. by eapply Hs.
Qed.

Lemma run_length_0_head (s : text) :
  run_length TextProcessor.space_class s = 0%nat →
  ∀ c s', s = c :: s' → is_space c = false.
Proof.
  intros H c s' ->. destruct (is_space c) eqn:Hc; [|done].
  by rewrite run_length_space in H.
Qed.

Lemma drop_run_head (s : text) :
  ∀ c s', drop (run_length TextProcessor.space_class s) s = c :: s' →
          is_space c = false.
Proof.
  induction s as [|d s IH]; intros c s'; [done|].
  destruct (is_space d) eqn:Hd.
  - rewrite run_length_space by done. apply IH.
  - rewrite run_length_nonspace by done. by intros [= <- _].
Qed.

Lemma scan_no_space_pair (n : nat) :
  ∀ s, (length s ≤ n)%nat → no_space_pair (scan_spaces 0%nat s) = true.
Proof.
  induction n as [|n IH]; intros [|c s] Hlen; try done; [simpl in Hlen; lia|].
  simpl in Hlen.
  destruct (is_space c) eqn:Hc.
  - destruct (decide (run_length TextProcessor.space_class s = 0%nat)) as [H0|H0].
    + rewrite scan_space_single by done.
      apply no_space_pair_cons; [|apply IH; lia].
      intros _. by apply scan_head_nonspace, run_length_0_head.
    + rewrite scan_space_run by done.
      apply no_space_pair_cons.
      * intros _. apply scan_head_nonspace, drop_run_head.
      * apply IH. rewrite length_drop. lia.
  - rewrite scan_nonspace by done.
    apply no_space_pair_cons; [by rewrite Hc|apply IH; lia].
Qed.

Lemma normalize_shape (lower : text → text) (s : text) :
  Forall (fun c => in_domain c = true) (normalize lower s)
  ∧ no_space_pair (normalize lower s) = true
  ∧ (∀ c t, normalize lower s = c :: t → is_space c = false)
  ∧ (∀ c t, normalize lower s = t ++ [c] → is_space c = false).
Proof.
  unfold normalize.
  set (u := collapse_space_runs (replace_outside_domain (lower s))).
  destruct (str_strip_spec u) as (l & r & E & _ & _ & Hhd & Hlast).
  split; [|split; [|done]].
  - apply str_strip_Forall, collapse_Forall; [done|apply replace_in_domain].
  - apply (no_space_pair_prefix _ r), (no_space_pair_suffix l).
    rewrite <- E. unfold u. rewrite <- re_sub_space_run.
    by apply (scan_no_space_pair (length (replace_outside_domain (lower s)))).
Qed.

(** X11: whatever the input, the text [standardize_text] returns holds only
    characters of the allowed domain, never has two whitespace characters
    in a row, and neither starts nor ends with whitespace. *)
Theorem standardize_text_shape (lower : text → text) (v : PyVal) :
  ∃ s, TextProcessor.standardize_text lower v = Ok s
       ∧ forallb in_domain s = true
       ∧ no_space_pair s = true
       ∧ (∀ c t, s = c :: t → is_space c = false)
       ∧ (∀ c t, s = t ++ [c] → is_space c = false).
Proof.
  exists (clean_text lower v). split; [apply standardize_text_clean|].
  unfold clean_text. destruct v as [| | |[|c s]|];
    try (repeat split; try done; by intros ? [|??]).
  destruct (normalize_shape lower (c :: s)) as (Hdom & Hpair & Hhd & Hlast).
  split; [|done]. apply forallb_forall. intros d Hd.
  rewrite Forall_forall in Hdom. by apply Hdom.
Qed.

(** ** [PaperCheckSystem.calculate_similarity] in general *)

Lemma preprocess_texts_ok (lower : text → text) (self : PaperCheckSystem.t) :
  PaperCheckSystem.preprocess_texts lower self
  = Ok {| PaperCheckSystem.original_content :=
            PaperCheckSystem.original_content self;
          PaperCheckSystem.plagiarized_content :=
            PaperCheckSystem.plagiarized_content self;
          PaperCheckSystem.tokenized_original :=
            if PaperCheckSystem.content_truthy
                 (PaperCheckSystem.original_content self)
            then Some (tokens_of lower
                         (PaperCheckSystem.content_value
                            (PaperCheckSystem.original_content self)))
            else PaperCheckSystem.tokenized_original self;
          PaperCheckSystem.tokenized_plagiarized :=
            if PaperCheckSystem.content_truthy
                 (PaperCheckSystem.plagiarized_content self)
            then Some (tokens_of lower
                         (PaperCheckSystem.content_value
                            (PaperCheckSystem.plagiarized_content self)))
            else PaperCheckSystem.tokenized_plagiarized self |}.
Proof.
  unfold PaperCheckSystem.preprocess_texts.
  destruct self as [oc pc to tp]. cbn [PaperCheckSystem.original_content
    PaperCheckSystem.plagiarized_content PaperCheckSystem.tokenized_original
    PaperCheckSystem.tokenized_plagiarized].
  destruct (PaperCheckSystem.content_truthy oc);
    destruct (PaperCheckSystem.content_truthy pc) eqn:Hpc;
    rewrite ?standardize_text_clean;
    cbn [mbind Exc_bind PaperCheckSystem.original_content
         PaperCheckSystem.plagiarized_content
         PaperCheckSystem.tokenized_original
         PaperCheckSystem.tokenized_plagiarized];
    rewrite ?Hpc, ?standardize_text_clean; reflexivity.
Qed.

(** Once both token lists are there, the score is computed and nothing is
    raised. *)
Lemma calculate_similarity_tokens (lower : text → text)
    (oc pc : option text) (ta tb : list text) :
  PaperCheckSystem.calculate_similarity lower
    {| PaperCheckSystem.original_content := oc;
       PaperCheckSystem.plagiarized_content := pc;
       PaperCheckSystem.tokenized_original := Some ta;
       PaperCheckSystem.tokenized_plagiarized := Some tb |}
  = LCSEngine.compute_textual_similarity lower
      (PyStr (str_join [SPACE] ta)) (PyStr (str_join [SPACE] tb)).
Proof.
  unfold PaperCheckSystem.calculate_similarity.
  cbn [PaperCheckSystem.tokenized_original
       PaperCheckSystem.tokenized_plagiarized].
  rewrite !bool_decide_eq_false_2 by done.
  cbn [orb mbind Exc_bind PaperCheckSystem.tokenized_original
       PaperCheckSystem.tokenized_plagiarized PaperCheckSystem.join_tokens].
  by rewrite similarity_unfold.
Qed.

(** Which token lists [calculate_similarity] ends up joining. *)
Lemma calculate_similarity_cases (lower : text → text) (self : PaperCheckSystem.t) :
  PaperCheckSystem.calculate_similarity lower self
  = match missing_tokens self with
    | true => Raise RuntimeError
    | false =>
        match effective_tokens lower self with
        | (Some ta, Some tb) =>
            LCSEngine.compute_textual_similarity lower
              (PyStr (str_join [SPACE] ta)) (PyStr (str_join [SPACE] tb))
        | _ => Raise RuntimeError
        end
    end.
Proof.
  destruct self as [oc pc [ta|] [tb|]]; unfold missing_tokens, effective_tokens;
    cbn [PaperCheckSystem.original_content PaperCheckSystem.plagiarized_content
         PaperCheckSystem.tokenized_original
         PaperCheckSystem.tokenized_plagiarized].
  - rewrite calculate_similarity_tokens.
    by rewrite !bool_decide_eq_false_2 by done.
  - unfold PaperCheckSystem.calculate_similarity.
    cbn [PaperCheckSystem.tokenized_original
         PaperCheckSystem.tokenized_plagiarized].
    rewrite (bool_decide_eq_true_2 (None = None)) by done.
    rewrite orb_true_r, preprocess_texts_ok.
    cbn [mbind Exc_bind PaperCheckSystem.original_content
         PaperCheckSystem.plagiarized_content
         PaperCheckSystem.tokenized_original
         PaperCheckSystem.tokenized_plagiarized].
    destruct (PaperCheckSystem.content_truthy oc),
      (PaperCheckSystem.content_truthy pc);
      cbn [mbind Exc_bind PaperCheckSystem.join_tokens try_except andb orb negb];
      try reflexivity; by rewrite similarity_unfold.
  - unfold PaperCheckSystem.calculate_similarity.
    cbn [PaperCheckSystem.tokenized_original
         PaperCheckSystem.tokenized_plagiarized].
    rewrite (bool_decide_eq_true_2 (None = None)) by done.
    cbn [orb]. rewrite preprocess_texts_ok.
    cbn [mbind Exc_bind PaperCheckSystem.original_content
         PaperCheckSystem.plagiarized_content
         PaperCheckSystem.tokenized_original
         PaperCheckSystem.tokenized_plagiarized].
    destruct (PaperCheckSystem.content_truthy oc),
      (PaperCheckSystem.content_truthy pc);
      cbn [mbind Exc_bind PaperCheckSystem.join_tokens try_except andb orb negb];
      try reflexivity; by rewrite similarity_unfold.
  - unfold PaperCheckSystem.calculate_similarity.
    cbn [PaperCheckSystem.tokenized_original
         PaperCheckSystem.tokenized_plagiarized].
    rewrite (bool_decide_eq_true_2 (None = None)) by done.
    cbn [orb]. rewrite preprocess_texts_ok.
    cbn [mbind Exc_bind PaperCheckSystem.original_content
         PaperCheckSystem.plagiarized_content
         PaperCheckSystem.tokenized_original
         PaperCheckSystem.tokenized_plagiarized].
    destruct (PaperCheckSystem.content_truthy oc),
      (PaperCheckSystem.content_truthy pc);
      cbn [mbind Exc_bind PaperCheckSystem.join_tokens try_except andb orb negb];
      try reflexivity; by rewrite similarity_unfold.
Qed.

(** X12: whenever [calculate_similarity] returns a score, the score lies in
    the closed interval [0, 1], and each of the two token lists was either
    already there or could be computed from a content that is a non-empty
    text. *)
Theorem calculate_similarity_returned (lower : text → text)
    (self : PaperCheckSystem.t) (q : Qc) :
  PaperCheckSystem.calculate_similarity lower self = Ok q →
  (0 <= q)%Qc ∧ (q <= 1)%Qc
  ∧ (PaperCheckSystem.tokenized_original self ≠ None
     ∨ PaperCheckSystem.content_truthy
         (PaperCheckSystem.original_content self) = true)
  ∧ (PaperCheckSystem.tokenized_plagiarized self ≠ None
     ∨ PaperCheckSystem.content_truthy
         (PaperCheckSystem.plagiarized_content self) = true).
Proof.
  rewrite calculate_similarity_cases.
  unfold missing_tokens, effective_tokens.
  destruct self as [oc pc [ta|] [tb|]];
    cbn [PaperCheckSystem.original_content PaperCheckSystem.plagiarized_content
         PaperCheckSystem.tokenized_original
         PaperCheckSystem.tokenized_plagiarized];
    rewrite ?(bool_decide_eq_true_2 (None = None)) by done;
    rewrite ?bool_decide_eq_false_2 by done;
    destruct (PaperCheckSystem.content_truthy oc),
      (PaperCheckSystem.content_truthy pc);
    cbn [andb orb negb]; try discriminate;
    rewrite similarity_unfold; intros [= <-];
    (split; [apply similarity_score_bounds|]);
    (split; [apply similarity_score_bounds|]);
    split; (by left) || (by right).
Qed.

Lemma calculate_similarity_returned_witness :
  let self := PaperCheckSystem.loaded (lit "a b") (lit "a") in
  let q := similarity_score [lit "a"; lit "b"] [lit "a"] in
  (0 <= q)%Qc ∧ (q <= 1)%Qc
  ∧ (PaperCheckSystem.tokenized_original self ≠ None
     ∨ PaperCheckSystem.content_truthy
         (PaperCheckSystem.original_content self) = true)
  ∧ (PaperCheckSystem.tokenized_plagiarized self ≠ None
     ∨ PaperCheckSystem.content_truthy
         (PaperCheckSystem.plagiarized_content self) = true).
Proof.
  apply (calculate_similarity_returned (fmap ascii_lower)
           (PaperCheckSystem.loaded (lit "a b") (lit "a"))
           (similarity_score [lit "a"; lit "b"] [lit "a"])).
  reflexivity.
Defined.

(** ** The path check *)








(** ** [tokenize_content] on any text *)

Lemma split_scan_nospace (s : text) :
  ∀ cur,
    forallb (fun c => negb (is_space c)) cur = true →
    Forall (fun t => forallb (fun c => negb (is_space c)) t = true)
      (split_scan cur s).
Proof.
  assert (Hrev : ∀ cur, forallb (fun c => negb (is_space c)) cur = true →
                        forallb (fun c => negb (is_space c)) (rev cur) = true).
  { intros cur H. apply forallb_forall. intros c Hc%in_rev.
    rewrite forallb_forall in H. by apply H. }
  induction s as [|c s IH]; intros cur Hcur; simpl.
  - destruct cur; [done|]. constructor; [by apply Hrev|done].
  - destruct (is_space c) eqn:Hc.
    + destruct cur; [by apply IH|].
      constructor; [by apply Hrev|by apply IH].
    + apply IH. simpl. by rewrite Hc.
Qed.

(** X17: on any text, [tokenize_content] returns tokens that are non-empty
    and free of whitespace, and put one after the other they give back the
    text with its whitespace removed. *)
Theorem tokenize_content_spec (s : text) :
  Forall (fun t => t ≠ [] ∧ forallb (fun c => negb (is_space c)) t = true)
    (TextProcessor.tokenize_content s)
  ∧ concat (TextProcessor.tokenize_content s)
    = List.filter (fun c => negb (is_space c)) s.
Proof.
  split; [|apply tokenize_content_concat].
  apply Forall_and; [apply tokenize_content_nonempty|].
  unfold TextProcessor.tokenize_content. destruct (negb _); [done|].
  by apply split_scan_nospace.
Qed.

(** Instances of the statements above that assume [LowerFacts]. *)

Lemma retokenize_stable_witness :
  token_sequence (fmap ascii_lower)
    (PyStr (str_join [SPACE]
              (tokens_of (fmap ascii_lower) (PyStr (lit "Hello,  World!")))))
  = token_sequence (fmap ascii_lower) (PyStr (lit "Hello,  World!")).
Proof.
  exact (retokenize_stable (fmap ascii_lower) ascii_lower_facts
           (PyStr (lit "Hello,  World!"))).
Defined.

(** X19: when [calculate_similarity] is called on an object whose two
    token lists are both still [None] and it returns a score, both contents
    are non-empty texts and the score is the one
    [compute_textual_similarity] returns on the two raw contents. *)
Theorem calculate_similarity_fresh (lower : text → text)
    (oc pc : option text) (q : Qc) :
  LowerFacts lower →
  PaperCheckSystem.calculate_similarity lower
    {| PaperCheckSystem.original_content := oc;
       PaperCheckSystem.plagiarized_content := pc;
       PaperCheckSystem.tokenized_original := None;
       PaperCheckSystem.tokenized_plagiarized := None |}
  = Ok q →
  ∃ orig plag,
    oc = Some orig ∧ pc = Some plag ∧ orig ≠ [] ∧ plag ≠ []
    ∧ LCSEngine.compute_textual_similarity lower (PyStr orig) (PyStr plag)
      = Ok q.
Proof.
  intros Hl. destruct oc as [orig|], pc as [plag|].
  - change {| PaperCheckSystem.original_content := Some orig;
              PaperCheckSystem.plagiarized_content := Some plag;
              PaperCheckSystem.tokenized_original := None;
              PaperCheckSystem.tokenized_plagiarized := None |}
      with (PaperCheckSystem.loaded orig plag).
    rewrite (calculate_similarity_loaded lower Hl).
    destruct orig as [|a orig], plag as [|p plag]; try discriminate.
    intros H. by exists (a :: orig), (p :: plag).
  - rewrite calculate_similarity_cases. unfold missing_tokens. cbn.
    rewrite orb_true_r. discriminate.
  - rewrite calculate_similarity_cases. by unfold missing_tokens; cbn.
  - rewrite calculate_similarity_cases. by unfold missing_tokens; cbn.
Qed.

Lemma calculate_similarity_fresh_witness :
  ∃ orig plag,
    Some (lit "a, b c") = Some orig ∧ Some (lit "A c") = Some plag
    ∧ orig ≠ [] ∧ plag ≠ []
    ∧ LCSEngine.compute_textual_similarity (fmap ascii_lower)
        (PyStr orig) (PyStr plag)
      = Ok (similarity_score [lit "a"; lit "b"; lit "c"] [lit "a"; lit "c"]).
Proof.
  apply (calculate_similarity_fresh (fmap ascii_lower)
           (Some (lit "a, b c")) (Some (lit "A c"))
           (similarity_score [lit "a"; lit "b"; lit "c"] [lit "a"; lit "c"]));
    [apply ascii_lower_facts | reflexivity].
Defined.

(** ** Letter case *)

Lemma ascii_lower_idem (c : Z) : ascii_lower (ascii_lower c) = ascii_lower c.
Proof. unfold ascii_lower at 1. by rewrite ascii_lower_not_upper. Qed.

Lemma ascii_lower_keeps_plain (s : text) :
  plain s = true → plain (ascii_lower <$> s) = true.
Proof.
  unfold plain. rewrite !forallb_forall. intros H c Hc.
  apply list_elem_of_In, list_elem_of_fmap in Hc as (d & -> & Hd).
  apply list_elem_of_In, H in Hd.
  unfold ascii_lower. destruct (is_upper d) eqn:Hu; [|done].
  unfold is_ascii, is_cjk, is_upper in *. bool_to_Z. lia.
Qed.

Lemma standardize_text_lowered (lower : text → text) (s : text) :
  LowerFacts lower → plain s = true →
  TextProcessor.standardize_text lower (PyStr (ascii_lower <$> s))
  = TextProcessor.standardize_text lower (PyStr s).
Proof.
  intros Hl Hs.
  rewrite !(standardize_text_plain lower Hl)
    by (done || by apply ascii_lower_keeps_plain).
  rewrite !standardize_text_clean. f_equal.
  assert (Hn : normalize (fmap ascii_lower) (ascii_lower <$> s)
               = normalize (fmap ascii_lower) s).
  { unfold normalize. do 3 f_equal.
    rewrite <- list_fmap_compose. apply list_fmap_ext.
    intros _ d _. apply ascii_lower_idem. }
  destruct s as [|c s]; [done|]. exact Hn.
Qed.

(** X20: on texts of ASCII characters and characters of U+4E00..U+9FFF the
    score ignores the case of ASCII letters: lowercasing either text
    beforehand changes nothing. *)
Theorem similarity_ignores_case (lower : text → text) (s1 s2 : text) :
  LowerFacts lower →
  plain s1 = true →
  plain s2 = true →
  LCSEngine.compute_textual_similarity lower
    (PyStr (ascii_lower <$> s1)) (PyStr (ascii_lower <$> s2))
  = LCSEngine.compute_textual_similarity lower (PyStr s1) (PyStr s2).
Proof.
  intros Hl H1 H2. unfold LCSEngine.compute_textual_similarity.
  by rewrite !standardize_text_lowered.
Qed.

Lemma similarity_ignores_case_witness :
  LCSEngine.compute_textual_similarity (fmap ascii_lower)
    (PyStr (ascii_lower <$> lit "Hello World"))
    (PyStr (ascii_lower <$> lit "HELLO there"))
  = LCSEngine.compute_textual_similarity (fmap ascii_lower)
      (PyStr (lit "Hello World")) (PyStr (lit "HELLO there")).
Proof.
  apply (similarity_ignores_case (fmap ascii_lower)
           (lit "Hello World") (lit "HELLO there"));
    [apply ascii_lower_facts | reflexivity | reflexivity].
Defined.
